(** * Gainer bridge relayer: a shallow embedding of [script.py]

    The relayer watches a source chain for [TokensDeposited] logs, waits
    for a number of block confirmations, and sends one [releaseTokens]
    transaction per deposit to the destination chain, reporting its health
    to an external monitor.

    The node RPC (web3), the HTTP monitor (requests) and the clock are
    outside the program.  Each call to them is answered by an environment
    record that says whether the call returns or raises, so that every
    [try]/[except] of the script appears as written.  Python integers are
    unbounded and are modelled by [Z]; [time.time()] is a double, read as
    the rational it denotes, and the subtraction of two clock readings is
    rounded as IEEE 754 rounds it. *)

From Stdlib Require Import ZArith QArith Qround Qpower Lqa Lia List Sorted.
From stdpp Require Import base decidable option list sets gmap strings.
Import ListNotations.

Local Open Scope Z_scope.

(** ** Exceptions

    Only subclasses of [Exception] are raised by the collaborators; the
    interrupt signal ([KeyboardInterrupt], which [except Exception] does
    not catch) is delivered by the environment of the main loop. *)

Inductive exn : Type :=
| ConnectionError      (* builtin, raised by [get_contract] and the RPC provider *)
| Web3Exception        (* any error of a web3 call *)
| RequestException     (* [requests.RequestException]: refused, timed out, ... *)
| RuntimeError         (* any other [Exception] *)
| SleepValueError      (* the [ValueError] of [time.sleep]: negative length *)
| OverflowError        (* [time.sleep]: length beyond the clock's range *)
| OSError.             (* the operating system refuses the call *)

#[global] Instance exn_eq_dec : EqDecision exn.
Proof. solve_decision. Defined.

Inductive outcome (A : Type) : Type :=
| Return (a : A)
| Raise (e : exn).
Arguments Return {A} a.
Arguments Raise {A} e.

(** ** Data *)

(** The [args] of a decoded [TokensDeposited] log (SOURCE_BRIDGE_ABI).
    Addresses and [bytes32] values are read as numbers. *)
Record DepositArgs : Type := {
  sender : Z;
  recipient : Z;
  amount : Z;
  destinationChainId : Z;
  transactionId : Z
}.

(** A [LogReceipt] as the event filter yields it. *)
Record LogReceipt : Type := {
  transactionHash : Z;
  blockNumber : Z;
  logIndex : Z;
  args : DepositArgs
}.

#[global] Instance DepositArgs_eq_dec : EqDecision DepositArgs.
Proof. solve_decision. Defined.

#[global] Instance LogReceipt_eq_dec : EqDecision LogReceipt.
Proof. solve_decision. Defined.

(** ** BlockchainConnector *)

(** What the node answers during one [get_latest_block_number]:
    [alive] is the first [is_connected()], [reconnects] the one after
    [_connect()] (which catches its own errors), [block_number] the
    answer of [web3.eth.block_number]. *)
Record HeightEnv : Type := {
  alive : bool;
  reconnects : bool;
  block_number : outcome Z
}.

Definition get_latest_block_number (env : HeightEnv) : outcome Z :=
  if alive env then block_number env
  else if reconnects env then block_number env
  else Return 0.

(** ** BridgeEventListener *)

(** What the source chain answers during one poll. *)
Record PollEnv : Type := {
  source : HeightEnv;
  new_entries : outcome (list LogReceipt)
}.

(** One iteration of the [for event in new_entries] loop, on the pair
    ([self.processed_events], [confirmed_events]).  The key of the set is
    [transactionHash.hex()], which is injective, so the hash stands for it. *)
Definition visit (block_confirmations latest_block : Z)
    (acc : gset Z * list LogReceipt) (event : LogReceipt)
  : gset Z * list LogReceipt :=
  let tx_hash := transactionHash event in
  if decide (tx_hash ∈ acc.1) then acc
  else if block_confirmations <=? latest_block - blockNumber event
       then ({[tx_hash]} ∪ acc.1, acc.2 ++ [event])
       else acc.

Definition confirm_loop (block_confirmations latest_block : Z)
    (processed_events : gset Z) (entries : list LogReceipt)
  : gset Z * list LogReceipt :=
  fold_left (visit block_confirmations latest_block) entries (processed_events, []).

(** The body of the [try] block of [get_confirmed_events]. *)
Definition get_confirmed_events_body (block_confirmations : Z)
    (processed_events : gset Z) (env : PollEnv)
  : outcome (list LogReceipt) * gset Z :=
  match get_latest_block_number (source env) with
  | Raise e => (Raise e, processed_events)
  | Return latest_block =>
      if latest_block =? 0 then (Return [], processed_events)
      else
        match new_entries env with
        | Raise e => (Raise e, processed_events)
        | Return [] => (Return [], processed_events)
        | Return entries =>
            let r := confirm_loop block_confirmations latest_block
                       processed_events entries in
            (Return r.2, r.1)
        end
  end.

(** [try: ... except Exception as e: logging.error(...); return []] *)
Definition get_confirmed_events (block_confirmations : Z)
    (processed_events : gset Z) (env : PollEnv)
  : outcome (list LogReceipt) * gset Z :=
  match get_confirmed_events_body block_confirmations processed_events env with
  | (Raise _, st) => (Return [], st)
  | r => r
  end.

(** The events a poll hands to its caller. *)
Definition surfaced (r : outcome (list LogReceipt)) : list LogReceipt :=
  match r with
  | Return l => l
  | Raise _ => []
  end.

(** Successive polls of one listener: the returned lists, cycle by cycle. *)
Fixpoint poll_cycles (block_confirmations : Z) (processed_events : gset Z)
    (envs : list PollEnv) : list (list LogReceipt) :=
  match envs with
  | [] => []
  | env :: rest =>
      let r := get_confirmed_events block_confirmations processed_events env in
      surfaced r.1 :: poll_cycles block_confirmations r.2 rest
  end.

(** [self.processed_events] after the polls. *)
Definition poll_state (block_confirmations : Z) (processed_events : gset Z)
    (envs : list PollEnv) : gset Z :=
  fold_left (fun st env => (get_confirmed_events block_confirmations st env).2)
            envs processed_events.

(** A node that is connected, at height [latest], delivering [entries]. *)
Definition delivering (latest : Z) (entries : list LogReceipt) : PollEnv :=
  {| source := {| alive := true; reconnects := true; block_number := Return latest |};
     new_entries := Return entries |}.

(** ** TransactionProcessor *)

(** The transaction dictionary that is built, completed with its gas
    limit, signed and sent. *)
Record ReleaseTransaction : Type := {
  tx_from : Z;
  tx_nonce : Z;
  tx_gasPrice : Z;
  tx_chainId : Z;
  tx_recipient : Z;
  tx_amount : Z;
  tx_sourceTransactionId : Z;
  tx_gas : option Z
}.

#[global] Instance ReleaseTransaction_eq_dec : EqDecision ReleaseTransaction.
Proof. solve_decision. Defined.

Definition with_gas (tx : ReleaseTransaction) (gas : Z) : ReleaseTransaction :=
  {| tx_from := tx_from tx; tx_nonce := tx_nonce tx; tx_gasPrice := tx_gasPrice tx;
     tx_chainId := tx_chainId tx; tx_recipient := tx_recipient tx;
     tx_amount := tx_amount tx;
     tx_sourceTransactionId := tx_sourceTransactionId tx;
     tx_gas := Some gas |}.

(** The calls that reach the destination chain's node or the signer. *)
Inductive DestCall : Type :=
| GetTransactionCount (address : Z)
| GasPrice
| BuildTransaction (tx : ReleaseTransaction)
| EstimateGas (tx : ReleaseTransaction)
| SignTransaction (tx : ReleaseTransaction)
| SendRawTransaction (tx : ReleaseTransaction).

#[global] Instance DestCall_eq_dec : EqDecision DestCall.
Proof. solve_decision. Defined.

(** What the destination chain answers during one relay attempt. *)
Record DestEnv : Type := {
  transaction_count : outcome Z;
  gas_price : outcome Z;
  build_transaction : outcome unit;
  estimate_gas : outcome Z;
  sign_transaction : outcome unit;
  send_raw_transaction : outcome Z
}.

(** Computations that call the destination chain: the calls made so far
    are logged, and a raised exception ends the computation. *)
Definition dest (A : Type) : Type := list DestCall -> outcome A * list DestCall.

Definition dret {A} (a : A) : dest A := fun log => (Return a, log).

Definition dbind {A B} (m : dest A) (k : A -> dest B) : dest B :=
  fun log =>
    match m log with
    | (Return a, log') => k a log'
    | (Raise e, log') => (Raise e, log')
    end.

Definition call {A} (c : DestCall) (answer : outcome A) : dest A :=
  fun log => (answer, log ++ [c]).

#[global] Instance dest_ret : MRet dest := @dret.
#[global] Instance dest_bind : MBind dest := fun A B k m => dbind m k.

Inductive RelayResult : Type := Submitted | Skipped | Failed.

#[global] Instance RelayResult_eq_dec : EqDecision RelayResult.
Proof. solve_decision. Defined.

(** The relayer's account and the chain it sends to. *)
Record ProcessorConfig : Type := {
  relayer_address : Z;
  chain_id : Z
}.

(** Lines 240-260: build, estimate, sign, send.  Yields the transaction
    that was broadcast. *)
Definition send_release (cfg : ProcessorConfig) (event : LogReceipt)
    (env : DestEnv) : dest ReleaseTransaction :=
  let a := args event in
  let source_tx_id := transactionId a in
  nonce ← call (GetTransactionCount (relayer_address cfg)) (transaction_count env);
  price ← call GasPrice (gas_price env);
  let release_tx :=
    {| tx_from := relayer_address cfg; tx_nonce := nonce; tx_gasPrice := price;
       tx_chainId := chain_id cfg; tx_recipient := recipient a;
       tx_amount := amount a; tx_sourceTransactionId := source_tx_id;
       tx_gas := None |} in
  _ ← call (BuildTransaction release_tx) (build_transaction env);
  gas ← call (EstimateGas release_tx) (estimate_gas env);
  let release_tx := with_gas release_tx gas in
  _ ← call (SignTransaction release_tx) (sign_transaction env);
  _ ← call (SendRawTransaction release_tx) (send_raw_transaction env);
  mret release_tx.

(** [process_deposit_event], with the return statement that was taken:
    line 235 ([Skipped]), line 271 ([Submitted]) or line 274 ([Failed]).
    The result carries [self.processed_source_tx_ids] afterwards and the
    calls made to the destination chain. *)
Definition relay (cfg : ProcessorConfig) (processed_source_tx_ids : gset Z)
    (event : LogReceipt) (env : DestEnv)
  : RelayResult * gset Z * list DestCall :=
  let source_tx_id := transactionId (args event) in
  if decide (source_tx_id ∈ processed_source_tx_ids)
  then (Skipped, processed_source_tx_ids, [])
  else
    match send_release cfg event env [] with
    | (Return _, calls) =>
        (Submitted, {[source_tx_id]} ∪ processed_source_tx_ids, calls)
    | (Raise _, calls) => (Failed, processed_source_tx_ids, calls)
    end.

(** The boolean that the script returns at each of the three places. *)
Definition returned (r : RelayResult) : bool :=
  match r with
  | Submitted => true
  | Skipped => true
  | Failed => false
  end.

Definition process_deposit_event (cfg : ProcessorConfig)
    (processed_source_tx_ids : gset Z) (event : LogReceipt) (env : DestEnv)
  : bool * gset Z * list DestCall :=
  let r := relay cfg processed_source_tx_ids event env in
  (returned r.1.1, r.1.2, r.2).

(** Successive calls of one processor. *)
Fixpoint relay_calls (cfg : ProcessorConfig) (processed_source_tx_ids : gset Z)
    (calls : list (LogReceipt * DestEnv)) : list (RelayResult * list DestCall) :=
  match calls with
  | [] => []
  | (event, env) :: rest =>
      let r := relay cfg processed_source_tx_ids event env in
      (r.1.1, r.2) :: relay_calls cfg r.1.2 rest
  end.

Definition is_send (c : DestCall) : bool :=
  match c with
  | SendRawTransaction _ => true
  | _ => false
  end.

(** Number of [send_raw_transaction] calls in a log of destination calls. *)
Definition broadcasts (log : list DestCall) : nat :=
  length (List.filter is_send log).

(** A destination on which the steps before the broadcast return. *)
Definition prepares (env : DestEnv) : Prop :=
  (exists n, transaction_count env = Return n) /\
  (exists p, gas_price env = Return p) /\
  build_transaction env = Return tt /\
  (exists g, estimate_gas env = Return g) /\
  sign_transaction env = Return tt.

(** A destination on which every step of an attempt returns. *)
Definition accepts (env : DestEnv) : Prop :=
  prepares env /\ exists h, send_raw_transaction env = Return h.

(** A destination on which some step of an attempt raises. *)
Definition rejects (env : DestEnv) : Prop :=
  (exists e, transaction_count env = Raise e) \/
  (exists e, gas_price env = Raise e) \/
  (exists e, build_transaction env = Raise e) \/
  (exists e, estimate_gas env = Raise e) \/
  (exists e, sign_transaction env = Raise e) \/
  (exists e, send_raw_transaction env = Raise e).

Definition healthy_dest (nonce price gas tx_hash : Z) : DestEnv :=
  {| transaction_count := Return nonce; gas_price := Return price;
     build_transaction := Return tt; estimate_gas := Return gas;
     sign_transaction := Return tt; send_raw_transaction := Return tx_hash |}.

(** Scenario C: [estimate_gas] raises. *)
Definition estimate_fails (nonce price : Z) : DestEnv :=
  {| transaction_count := Return nonce; gas_price := Return price;
     build_transaction := Return tt; estimate_gas := Raise Web3Exception;
     sign_transaction := Return tt; send_raw_transaction := Return 0 |}.

(** ** HealthMonitor *)

Inductive Status : Type := OPERATIONAL | ERROR.

#[global] Instance Status_eq_dec : EqDecision Status.
Proof. solve_decision. Defined.

(** The JSON payload of a status report. *)
Record Payload : Type := {
  relayerId : Z;
  status : Status;
  timestamp : Z;
  lastSourceBlock : Z;
  pendingTransactions : Z
}.

(** What the clock and the monitoring service answer during one
    [report_status]: [post] is the status code of the response, or the
    exception raised by [requests.post]. *)
Record SinkEnv : Type := {
  current_time : Q;
  post : outcome Z
}.

(** [self.checkin_interval = 60] *)
Definition checkin_interval : Q := 60%Q.

(** [a < b] on rationals, as a boolean. *)
Definition Qltb (a b : Q) : bool := negb (Qle_bool b a).

(** *** Subtraction of doubles

    A positive rational [x] lies in one binade: [binade x] is the [e] with
    [2^e <= x < 2^(e+1)]. *)
Definition binade (x : Q) : Z :=
  let e0 := Z.log2 (Qnum x) - Z.log2 (Z.pos (Qden x)) in
  if Qle_bool (Qpower 2 e0) x then e0 else e0 - 1.

(** The nearest integer, a tie going to the even one. *)
Definition round_half_even (m : Q) : Z :=
  let f := Qfloor m in
  match Qcompare (m - inject_Z f) (1 # 2) with
  | Lt => f
  | Gt => f + 1
  | Eq => if Z.even f then f else f + 1
  end.

(** A positive rational rounded to 53 significant bits. *)
Definition round53_pos (x : Q) : Q :=
  let u := binade x - 52 in
  (inject_Z (round_half_even (x / Qpower 2 u)) * Qpower 2 u)%Q.

(** Rounding to the nearest double, ties to even.  Doubles have 53
    significant bits; the bounds of the exponent are left out, which
    changes nothing for the difference of two clock readings: it is far
    from overflow, and a difference of two doubles that is small enough to
    be subnormal is exact. *)
Definition round53 (x : Q) : Q :=
  let r := Qred x in
  match Qnum r with
  | Z0 => 0%Q
  | Zpos _ => round53_pos r
  | Zneg _ => (- round53_pos (- r))%Q
  end.

(** [current_time - self.last_checkin] on doubles. *)
Definition elapsed (current_time last_checkin : Q) : Q :=
  round53 (current_time - last_checkin).

(** Python's [int()] of a float: truncation towards zero. *)
Definition int_of (q : Q) : Z := Z.quot (Qnum q) (Z.pos (Qden q)).

(** [report_status]: whether it returned, [self.last_checkin] afterwards,
    and the payloads handed to [requests.post]. *)
Definition report_status (relayer_id : Z) (last_checkin : Q) (st : Status)
    (last_processed_block pending_tx : Z) (env : SinkEnv)
  : outcome unit * Q * list Payload :=
  let now := current_time env in
  if Qltb (elapsed now last_checkin) checkin_interval
  then (Return tt, last_checkin, [])
  else
    let payload :=
      {| relayerId := relayer_id; status := st; timestamp := int_of now;
         lastSourceBlock := last_processed_block;
         pendingTransactions := pending_tx |} in
    match post env with
    | Return _status_code => (Return tt, now, [payload])
    | Raise RequestException => (Return tt, last_checkin, [payload])
    | Raise e => (Raise e, last_checkin, [payload])
    end.

(** Successive reports of one monitor: the payloads pushed, call by call. *)
Fixpoint report_calls (relayer_id : Z) (last_checkin : Q)
    (calls : list (Status * Z * Z * SinkEnv)) : list (list Payload) :=
  match calls with
  | [] => []
  | (st, blk, pending, env) :: rest =>
      let r := report_status relayer_id last_checkin st blk pending env in
      r.2 :: report_calls relayer_id r.1.2 rest
  end.

(** A monitoring service that cannot be reached at time [t]. *)
Definition unreachable (t : Q) : SinkEnv :=
  {| current_time := t; post := Raise RequestException |}.

(** A monitoring service answering with [code] at time [t]. *)
Definition responding (t : Q) (code : Z) : SinkEnv :=
  {| current_time := t; post := Return code |}.

(** ** main *)

Record Config : Type := {
  block_confirmations : Z;
  poll_interval : Z;
  processor : ProcessorConfig
}.

(** The three pieces of mutable state: the listener's set, the
    processor's set and the monitor's time stamp. *)
Record Relayer : Type := {
  processed_events : gset Z;
  processed_source_tx_ids : gset Z;
  last_checkin : Q
}.

(** After the constructors have run. *)
Definition started : Relayer :=
  {| processed_events := ∅; processed_source_tx_ids := ∅; last_checkin := 0%Q |}.

(** What the outside world answers during one pass of [while True]:
    [destination] answers the relay of each event, [height] the
    [get_latest_block_number] of line 359, [sink] the report of line 357,
    [sleep] is what the operating system does when it is asked to sleep,
    [interrupted] tells whether Ctrl+C arrives during that sleep, and
    [on_error] answers the report of line 371 if it is reached. *)
Record CycleEnv : Type := {
  poll : PollEnv;
  destination : LogReceipt -> DestEnv;
  height : HeightEnv;
  sink : SinkEnv;
  sleep : outcome unit;
  interrupted : bool;
  on_error : SinkEnv
}.

(** What an observer outside the process sees. *)
Inductive Obs : Type :=
| Relayed (event : LogReceipt) (ok : bool) (calls : list DestCall)
| Pushed (p : Payload).

(** [for event in confirmed_events: processor.process_deposit_event(event)] *)
Fixpoint process_all (cfg : ProcessorConfig) (ids : gset Z)
    (answers : LogReceipt -> DestEnv) (events : list LogReceipt)
  : gset Z * list Obs :=
  match events with
  | [] => (ids, [])
  | event :: rest =>
      let r := process_deposit_event cfg ids event (answers event) in
      let r' := process_all cfg r.1.2 answers rest in
      (r'.1, Relayed event r.1.1 r.2 :: r'.2)
  end.

(** Lines 347-361, one pass of the loop up to [time.sleep].  [Raise e] is
    an error that no component caught. *)
Definition loop_body (cfg : Config) (st : Relayer) (env : CycleEnv)
  : outcome unit * Relayer * list Obs :=
  let p := get_confirmed_events (block_confirmations cfg)
             (processed_events st) (poll env) in
  match p.1 with
  | Raise e =>
      (Raise e,
       {| processed_events := p.2;
          processed_source_tx_ids := processed_source_tx_ids st;
          last_checkin := last_checkin st |}, [])
  | Return confirmed_events =>
      let q := process_all (processor cfg) (processed_source_tx_ids st)
                 (destination env) confirmed_events in
      match get_latest_block_number (height env) with
      | Raise e =>
          (Raise e,
           {| processed_events := p.2; processed_source_tx_ids := q.1;
              last_checkin := last_checkin st |}, q.2)
      | Return latest =>
          let r := report_status (relayer_address (processor cfg))
                     (last_checkin st) OPERATIONAL latest
                     (Z.of_nat (length confirmed_events)) (sink env) in
          (r.1.1,
           {| processed_events := p.2; processed_source_tx_ids := q.1;
              last_checkin := r.1.2 |},
           q.2 ++ map Pushed r.2)
      end
  end.

(** [time.sleep(secs)] for an integer: CPython turns the length into
    nanoseconds in a signed 64-bit integer and raises [OverflowError] when
    it does not fit, then raises [ValueError] for a negative length, and
    only then asks the operating system, whose answer is [os]. *)
Definition time_sleep (secs : Z) (os : outcome unit) : outcome unit :=
  let ns := secs * 1000000000 in
  if (ns <? - 2 ^ 63) || (2 ^ 63 - 1 <? ns) then Raise OverflowError
  else if secs <? 0 then Raise SleepValueError
  else os.

(** Lines 347-363, one pass of the loop with its
    [time.sleep(config['POLL_INTERVAL_SECONDS'])]. *)
Definition loop_pass (cfg : Config) (st : Relayer) (env : CycleEnv)
  : outcome unit * Relayer * list Obs :=
  match loop_body cfg st env with
  | (Return _, st', obs) =>
      (time_sleep (poll_interval cfg) (sleep env), st', obs)
  | r => r
  end.

Inductive Exit : Type :=
| StillRunning            (* the loop goes on *)
| ShutDown                (* [except KeyboardInterrupt] *)
| Fatal (e : exn).        (* [except Exception] *)

(** The [while True] loop inside its [try], driven by the answers of the
    outside world for as many passes as [envs] describes. *)
Fixpoint main_loop (cfg : Config) (st : Relayer) (envs : list CycleEnv)
  : Exit * Relayer * list Obs :=
  match envs with
  | [] => (StillRunning, st, [])
  | env :: rest =>
      match loop_pass cfg st env with
      | (Raise e, st', obs) =>
          let r := report_status (relayer_address (processor cfg))
                     (last_checkin st') ERROR 0 0 (on_error env) in
          (Fatal e,
           {| processed_events := processed_events st';
              processed_source_tx_ids := processed_source_tx_ids st';
              last_checkin := r.1.2 |},
           obs ++ map Pushed r.2)
      | (Return _, st', obs) =>
          if interrupted env then (ShutDown, st', obs)
          else
            let r := main_loop cfg st' rest in
            (r.1.1, r.1.2, obs ++ r.2)
      end
  end.



Definition is_push_with (s : Status) (o : Obs) : bool :=
  match o with
  | Pushed p => bool_decide (status p = s)
  | Relayed _ _ _ => false
  end.

(** The reports handed to the monitoring service with status [s]. *)
Definition pushes_with (s : Status) (obs : list Obs) : list Obs :=
  List.filter (is_push_with s) obs.

(** The list that the loop of [get_confirmed_events] builds, by recursion
    on the entries: a proof device, related to the loop by
    [confirm_loop_confirmed]. *)
Fixpoint confirmed (c latest : Z) (seen : gset Z) (entries : list LogReceipt)
  : list LogReceipt :=
  match entries with
  | [] => []
  | event :: rest =>
      if decide (transactionHash event ∈ seen) then confirmed c latest seen rest
      else if c <=? latest - blockNumber event
           then event :: confirmed c latest ({[transactionHash event]} ∪ seen) rest
           else confirmed c latest seen rest
  end.

(** The hashes of a list of events, as a set. *)
Definition hashes (events : list LogReceipt) : gset Z :=
  list_to_set (transactionHash <$> events).

(** The order that a sort by block number, then by log index, would give. *)
Definition before (a b : LogReceipt) : Prop :=
  blockNumber a < blockNumber b \/
  (blockNumber a = blockNumber b /\ logIndex a <= logIndex b).

(** ** Sample data *)

Definition deposit_AB : DepositArgs :=
  {| sender := 1; recipient := 2; amount := 5; destinationChainId := 7;
     transactionId := 171 |}.

Definition deposit_CD : DepositArgs :=
  {| sender := 3; recipient := 4; amount := 8; destinationChainId := 7;
     transactionId := 205 |}.

(** A deposit in block 100. *)
Definition event_100 : LogReceipt :=
  {| transactionHash := 11; blockNumber := 100; logIndex := 0; args := deposit_AB |}.

(** A deposit in block 101. *)
Definition event_101 : LogReceipt :=
  {| transactionHash := 12; blockNumber := 101; logIndex := 0; args := deposit_CD |}.

(** The deposit [deposit_AB] again, sent in another transaction. *)
Definition event_100_resent : LogReceipt :=
  {| transactionHash := 13; blockNumber := 100; logIndex := 1; args := deposit_AB |}.

Definition sample_processor : ProcessorConfig :=
  {| relayer_address := 9; chain_id := 5 |}.

Definition sample_config : Config :=
  {| block_confirmations := 12; poll_interval := 15;
     processor := sample_processor |}.

Definition connected (latest : Z) : HeightEnv :=
  {| alive := true; reconnects := true; block_number := Return latest |}.

Definition disconnected : HeightEnv :=
  {| alive := false; reconnects := false; block_number := Raise ConnectionError |}.



(** A deposit that the log fetch delivers again after it was handed out. *)
Definition scenario_redelivery : list PollEnv :=
  [delivering 112 [event_100]; delivering 113 [event_100; event_101]].

(** Two confirmed deposits, delivered with the later block first. *)
Definition out_of_order : PollEnv := delivering 200 [event_101; event_100].

(** Number of calls of a run that ended at line 271. *)
Definition submitted_count (rs : list (RelayResult * list DestCall)) : nat :=
  length (List.filter (fun r => bool_decide (r.1 = Submitted)) rs).

(** All destination calls of a run, in order. *)
Definition all_calls (rs : list (RelayResult * list DestCall)) : list DestCall :=
  concat (map snd rs).

(** Calls that all carry the cross-chain id [id]. *)
Definition carrying (id : Z) (calls : list (LogReceipt * DestEnv)) : Prop :=
  Forall (fun call => transactionId (args call.1) = id) calls.

(** Scenario B: the same cross-chain id twice, the destination accepting. *)
Definition scenario_B : list (LogReceipt * DestEnv) :=
  [(event_100, healthy_dest 0 1 21000 77);
   (event_100_resent, healthy_dest 1 1 21000 78)].

(** Scenario C: the same cross-chain id twice, [estimate_gas] raising. *)
Definition scenario_C : list (LogReceipt * DestEnv) :=
  [(event_100, estimate_fails 0 1); (event_100_resent, estimate_fails 0 1)].

(** Three reports 20 seconds apart, starting at time [t]; [p1], [p2] and
    [p3] are the answers of the monitoring service if it is called. *)
Definition spaced (t : Q) (p1 p2 p3 : outcome Z) : list (Status * Z * Z * SinkEnv) :=
  [(OPERATIONAL, 0, 0, {| current_time := t; post := p1 |});
   (OPERATIONAL, 0, 0, {| current_time := (t + 20)%Q; post := p2 |});
   (OPERATIONAL, 0, 0, {| current_time := (t + 40)%Q; post := p3 |})].

(** Scenario D: the monitoring service cannot be reached. *)
Definition scenario_D : list (Status * Z * Z * SinkEnv) :=
  spaced 1000 (Raise RequestException) (Raise RequestException)
         (Raise RequestException).

(** Number of payloads handed to [requests.post] during a run of reports. *)
Definition push_attempts (outs : list (list Payload)) : nat :=
  length (concat outs).

(** A pass in which the deposit of block 100 is confirmed and
    [estimate_gas] raises. *)
Definition failing_cycle : CycleEnv :=
  {| poll := delivering 112 [event_100];
     destination := fun _ => estimate_fails 0 1;
     height := connected 112;
     sink := responding 1000 200;
     sleep := Return tt;
     interrupted := false;
     on_error := responding 1000 200 |}.

(** The next pass: the deposit is delivered again and the destination
    would accept it. *)
Definition retry_cycle : CycleEnv :=
  {| poll := delivering 113 [event_100];
     destination := fun _ => healthy_dest 0 1 21000 77;
     height := connected 113;
     sink := responding 1015 200;
     sleep := Return tt;
     interrupted := false;
     on_error := responding 1015 200 |}.

(** A pass that reports at time 1000 and goes to sleep. *)
Definition quiet_cycle : CycleEnv :=
  {| poll := delivering 112 [];
     destination := fun _ => healthy_dest 0 1 21000 77;
     height := connected 112;
     sink := responding 1000 200;
     sleep := Return tt;
     interrupted := false;
     on_error := responding 1000 200 |}.

(** The next pass, 15 seconds later: the height query of line 359 raises,
    which nothing in the loop catches; the monitoring service is up. *)
Definition crashing_cycle : CycleEnv :=
  {| poll := delivering 113 [];
     destination := fun _ => healthy_dest 0 1 21000 77;
     height := {| alive := true; reconnects := true;
                  block_number := Raise Web3Exception |};
     sink := responding 1015 200;
     sleep := Return tt;
     interrupted := false;
     on_error := responding 1015 200 |}.

(** ** load_configuration *)

(** A value of the configuration dictionary: the required entries are
    strings, the two optional ones integers. *)
Inductive ConfigValue : Type :=
| Str (s : string)
| Int (n : Z).

#[global] Instance ConfigValue_eq_dec : EqDecision ConfigValue.
Proof. solve_decision. Defined.

(** The two exceptions that [load_configuration] lets out: its own
    [ConfigError], naming the variable, and the [ValueError] of [int()],
    carrying the text that did not parse. *)
Inductive LoadError : Type :=
| ConfigError (var : string)
| ValueError (text : string).

Definition required_vars : list string :=
  ["SOURCE_CHAIN_RPC_URL"; "DESTINATION_CHAIN_RPC_URL";
   "SOURCE_BRIDGE_CONTRACT_ADDRESS"; "DESTINATION_BRIDGE_CONTRACT_ADDRESS";
   "RELAYER_PRIVATE_KEY"; "HEALTHCHECK_URL"]%string.

(** [for var in required_vars: ...] on the dictionary built so far;
    [if not value] holds for an unset variable and for an empty one. *)
Fixpoint load_required (environ : gmap string string) (vars : list string)
    (config : gmap string ConfigValue) : LoadError + gmap string ConfigValue :=
  match vars with
  | [] => inr config
  | var :: rest =>
      match environ !! var with
      | None => inl (ConfigError var)
      | Some value =>
          if decide (value = ""%string) then inl (ConfigError var)
          else load_required environ rest (<[var := Str value]> config)
      end
  end.

(** [os.getenv(var, fallback)] *)
Definition getenv (environ : gmap string string) (var fallback : string) : string :=
  default fallback (environ !! var).

(** [load_configuration]; [py_int] is Python's [int()] on strings, [None]
    where it raises [ValueError]. *)
Definition load_configuration (py_int : string -> option Z)
    (environ : gmap string string) : LoadError + gmap string ConfigValue :=
  match load_required environ required_vars ∅ with
  | inl e => inl e
  | inr config =>
      let poll_text := getenv environ "POLL_INTERVAL_SECONDS" "15" in
      match py_int poll_text with
      | None => inl (ValueError poll_text)
      | Some poll_interval =>
          let config := <["POLL_INTERVAL_SECONDS"%string := Int poll_interval]> config in
          let depth_text := getenv environ "BLOCK_CONFIRMATIONS" "12" in
          match py_int depth_text with
          | None => inl (ValueError depth_text)
          | Some depth =>
              inr (<["BLOCK_CONFIRMATIONS"%string := Int depth]> config)
          end
      end
  end.

(** [int()] restricted to non-empty strings of ASCII digits, on which it
    reads the decimal number. *)
Definition digit_of (a : Ascii.ascii) : option Z :=
  let n := Z.of_nat (Ascii.nat_of_ascii a) in
  if (48 <=? n) && (n <=? 57) then Some (n - 48) else None.

Fixpoint digits_from (acc : Z) (s : string) : option Z :=
  match s with
  | EmptyString => Some acc
  | String a rest =>
      match digit_of a with
      | Some d => digits_from (10 * acc + d) rest
      | None => None
      end
  end.

Definition int_of_digits (s : string) : option Z :=
  match s with
  | EmptyString => None
  | _ => digits_from 0 s
  end.

(** An environment with the six required variables and nothing else. *)
Definition sample_environ : gmap string string :=
  list_to_map
    [("SOURCE_CHAIN_RPC_URL", "http://source:8545");
     ("DESTINATION_CHAIN_RPC_URL", "http://destination:8545");
     ("SOURCE_BRIDGE_CONTRACT_ADDRESS", "0x01");
     ("DESTINATION_BRIDGE_CONTRACT_ADDRESS", "0x02");
     ("RELAYER_PRIVATE_KEY", "ab");
     ("HEALTHCHECK_URL", "http://monitor/ping")]%string.

(** ** BlockchainConnector, with its state *)

(** [self.web3] is either [None] or a client; [self.chain_id] exists once
    a connection has succeeded. *)
Record Connector : Type := {
  web3 : bool;
  connector_chain_id : option Z
}.

(** What the node answers during one [_connect]: building the client,
    injecting the middleware, [web3.is_connected()] and
    [web3.eth.chain_id]. *)
Record ConnectEnv : Type := {
  http_provider : outcome unit;
  inject_middleware : outcome unit;
  handshake : bool;
  eth_chain_id : outcome Z
}.

Definition disconnect (conn : Connector) : Connector :=
  {| web3 := false; connector_chain_id := connector_chain_id conn |}.

(** [_connect]: any exception of the [try] block ends in
    [self.web3 = None]. *)
Definition _connect (conn : Connector) (env : ConnectEnv) : Connector :=
  match http_provider env with
  | Raise _ => disconnect conn
  | Return _ =>
      match inject_middleware env with
      | Raise _ => disconnect conn
      | Return _ =>
          if handshake env then
            match eth_chain_id env with
            | Raise _ => disconnect conn
            | Return n => {| web3 := true; connector_chain_id := Some n |}
            end
          else disconnect conn
      end
  end.

(** [__init__] *)
Definition new_connector (env : ConnectEnv) : Connector :=
  _connect {| web3 := false; connector_chain_id := None |} env.

(** [is_connected]; [probe] is the answer of [web3.is_connected()], which
    is asked only when [self.web3] is not [None]. *)
Definition is_connected (conn : Connector) (probe : bool) : bool :=
  web3 conn && probe.

(** What the node answers during one [get_latest_block_number]. *)
Record HeightCall : Type := {
  probe_before : bool;
  reconnect : ConnectEnv;
  probe_after : bool;
  eth_block_number : outcome Z
}.

(** [get_latest_block_number] on a connector, with the connector
    afterwards. *)
Definition get_latest_block_number_on (conn : Connector) (env : HeightCall)
  : outcome Z * Connector :=
  if is_connected conn (probe_before env) then (eth_block_number env, conn)
  else
    let conn' := _connect conn (reconnect env) in
    if is_connected conn' (probe_after env) then (eth_block_number env, conn')
    else (Return 0, conn').

(** The answers of [HeightEnv] that a connector and a node give. *)
Definition height_env_of (conn : Connector) (env : HeightCall) : HeightEnv :=
  {| alive := is_connected conn (probe_before env);
     reconnects := is_connected (_connect conn (reconnect env)) (probe_after env);
     block_number := eth_block_number env |}.

(** [get_contract]: [checksum] is the answer of [to_checksum_address]. *)
Definition get_contract (conn : Connector) (probe : bool) (checksum : outcome Z)
  : outcome Z :=
  if is_connected conn probe then checksum else Raise ConnectionError.

(** A node that answers every step of a connection. *)
Definition node_up (chain : Z) : ConnectEnv :=
  {| http_provider := Return tt; inject_middleware := Return tt;
     handshake := true; eth_chain_id := Return chain |}.

(** A node that refuses the handshake. *)
Definition node_down : ConnectEnv :=
  {| http_provider := Return tt; inject_middleware := Return tt;
     handshake := false; eth_chain_id := Raise ConnectionError |}.

(** ** The constructors and the start of main *)

(** What the source chain answers while [BridgeEventListener] is built:
    the [is_connected()] and [to_checksum_address] of [get_contract],
    then [create_filter]. *)
Record ListenerInit : Type := {
  listener_probe : bool;
  listener_checksum : outcome Z;
  create_filter : outcome unit
}.

Definition new_listener (conn : Connector) (env : ListenerInit) : outcome unit :=
  match get_contract conn (listener_probe env) (listener_checksum env) with
  | Raise e => Raise e
  | Return _ => create_filter env
  end.

(** Lines 211-212: the key is given its [0x] prefix when it lacks one. *)
Definition normalize_key (relayer_private_key : string) : string :=
  if String.prefix "0x" relayer_private_key then relayer_private_key
  else ("0x" ++ relayer_private_key)%string.

(** What is answered while [TransactionProcessor] is built: the
    [is_connected()] and [to_checksum_address] of [get_contract], and
    [account.from_key], which yields the account's address. *)
Record ProcessorInit : Type := {
  processor_probe : bool;
  processor_checksum : outcome Z;
  from_key : string -> outcome Z
}.

(** [self.connector.chain_id]; the attribute exists whenever [self.web3]
    is a client (see [connected_has_chain_id]). *)
Definition chain_id_of (conn : Connector) : Z :=
  default 0 (connector_chain_id conn).

Definition new_processor (conn : Connector) (relayer_private_key : string)
    (env : ProcessorInit) : outcome ProcessorConfig :=
  match get_contract conn (processor_probe env) (processor_checksum env) with
  | Raise e => Raise e
  | Return _ =>
      match from_key env (normalize_key relayer_private_key) with
      | Raise e => Raise e
      | Return address =>
          Return {| relayer_address := address; chain_id := chain_id_of conn |}
      end
  end.

(** [config[key]] for a string and for an integer entry; [None] stands
    for a [KeyError]. *)
Definition config_str (config : gmap string ConfigValue) (key : string)
  : option string :=
  match config !! key with
  | Some (Str s) => Some s
  | _ => None
  end.

Definition config_int (config : gmap string ConfigValue) (key : string)
  : option Z :=
  match config !! key with
  | Some (Int n) => Some n
  | _ => None
  end.

(** [config['POLL_INTERVAL_SECONDS']], read at line 363 in every pass;
    the key is there whenever [load_configuration] returned (see
    [load_configuration_loaded]). *)
Definition interval_of (config : gmap string ConfigValue) : Z :=
  default 0 (config_int config "POLL_INTERVAL_SECONDS").

(** What the outside world answers before the loop starts. *)
Record StartEnv : Type := {
  environ : gmap string string;
  source_node : ConnectEnv;
  destination_node : ConnectEnv;
  source_probe : bool;
  destination_probe : bool;
  listener_init : ListenerInit;
  processor_init : ProcessorInit
}.

(** How [main] ends. *)
Inductive MainExit : Type :=
| ConfigStop (var : string)   (* [except ConfigError]: logged, [main] returns *)
| ConnectStop                 (* line 330: [return] *)
| UnboundMonitor              (* line 371 reads [monitor] before line 342
                                 assigned it: UnboundLocalError leaves [main] *)
| Loop (e : Exit).            (* the loop was entered and ended as [e] *)

(** [main], lines 321-371.  An exception raised between line 322 and
    line 342 other than [ConfigError] reaches [except Exception], whose
    body uses [monitor]. *)
Definition main (py_int : string -> option Z) (env : StartEnv)
    (cycles : list CycleEnv) : MainExit * list Obs :=
  match load_configuration py_int (environ env) with
  | inl (ConfigError var) => (ConfigStop var, [])
  | inl (ValueError _) => (UnboundMonitor, [])
  | inr config =>
      let source_connector := new_connector (source_node env) in
      let dest_connector := new_connector (destination_node env) in
      if negb (is_connected source_connector (source_probe env))
         || negb (is_connected dest_connector (destination_probe env))
      then (ConnectStop, [])
      else
        match config_int config "BLOCK_CONFIRMATIONS",
              new_listener source_connector (listener_init env),
              config_str config "RELAYER_PRIVATE_KEY" with
        | Some depth, Return _, Some key =>
            match new_processor dest_connector key (processor_init env) with
            | Return pc =>
                let r := main_loop {| block_confirmations := depth;
                                      poll_interval := interval_of config;
                                      processor := pc |}
                           started cycles in
                (Loop r.1.1, r.2)
            | Raise _ => (UnboundMonitor, [])
            end
        | _, _, _ => (UnboundMonitor, [])
        end
  end.

(** A start in which everything answers. *)
Definition good_listener_init : ListenerInit :=
  {| listener_probe := true; listener_checksum := Return 1;
     create_filter := Return tt |}.

Definition good_processor_init : ProcessorInit :=
  {| processor_probe := true; processor_checksum := Return 2;
     from_key := fun _ => Return 9 |}.

Definition good_start : StartEnv :=
  {| environ := sample_environ;
     source_node := node_up 1; destination_node := node_up 5;
     source_probe := true; destination_probe := true;
     listener_init := good_listener_init;
     processor_init := good_processor_init |}.

(** ** Observations about releases *)

(** A relay that ended with an accepted broadcast for the cross-chain id
    [id]: it returned [True] and sent a transaction. *)
Definition is_release_for (id : Z) (o : Obs) : bool :=
  match o with
  | Relayed event ok calls =>
      ok && bool_decide (transactionId (args event) = id)
         && (0 <? broadcasts calls)%nat
  | Pushed _ => false
  end.

Definition releases_for (id : Z) (obs : list Obs) : list Obs :=
  List.filter (is_release_for id) obs.

(** The transactions handed to [send_raw_transaction]. *)
Definition sent (calls : list DestCall) : list ReleaseTransaction :=
  omap (fun c => match c with SendRawTransaction tx => Some tx | _ => None end)
       calls.

(** A destination on which only the broadcast itself raises. *)
Definition send_fails (nonce price gas : Z) : DestEnv :=
  {| transaction_count := Return nonce; gas_price := Return price;
     build_transaction := Return tt; estimate_gas := Return gas;
     sign_transaction := Return tt; send_raw_transaction := Raise Web3Exception |}.

(** The deposit [deposit_CD] logged by the transaction of [event_100]. *)
Definition event_100_second_log : LogReceipt :=
  {| transactionHash := 11; blockNumber := 100; logIndex := 1; args := deposit_CD |}.

(** A variable that is set to a non-empty text. *)
Definition usable (environ : gmap string string) (var : string) : Prop :=
  exists value, environ !! var = Some value /\ value <> ""%string.

(** The same pass with other answers from the destination chain. *)
Definition with_destination (env : CycleEnv) (answers : LogReceipt -> DestEnv)
  : CycleEnv :=
  {| poll := poll env; destination := answers; height := height env;
     sink := sink env; sleep := sleep env; interrupted := interrupted env;
     on_error := on_error env |}.

(** A pass in which the request of the report itself fails with an error
    that is not a [RequestException]; the service answers 2 seconds
    later. *)
Definition report_crash_cycle : CycleEnv :=
  {| poll := delivering 112 [];
     destination := fun _ => healthy_dest 0 1 21000 77;
     height := connected 112;
     sink := {| current_time := 1000; post := Raise RuntimeError |};
     sleep := Return tt;
     interrupted := false;
     on_error := responding 1002 200 |}.

(** A configuration whose poll interval is negative, as
    [POLL_INTERVAL_SECONDS=-5] gives. *)
Definition hasty_config : Config :=
  {| block_confirmations := 12; poll_interval := -5;
     processor := sample_processor |}.

(** [int()] restricted to an optional minus sign followed by ASCII
    digits. *)
Definition int_of_signed (s : string) : option Z :=
  match s with
  | String a rest =>
      if decide (Ascii.nat_of_ascii a = 45%nat) then Z.opp <$> int_of_digits rest
      else int_of_digits s
  | EmptyString => None
  end.

(** The start [good_start] with [POLL_INTERVAL_SECONDS=-5]. *)
Definition hasty_start : StartEnv :=
  {| environ := <["POLL_INTERVAL_SECONDS"%string := "-5"%string]> sample_environ;
     source_node := node_up 1; destination_node := node_up 5;
     source_probe := true; destination_probe := true;
     listener_init := good_listener_init;
     processor_init := good_processor_init |}.


(** Calls on which the destination rejects every attempt. *)
Definition all_reject (calls : list (LogReceipt * DestEnv)) : Prop :=
  Forall (fun call => rejects call.2) calls.

(** * The listener *)

Section Listener.

Variable c : Z.        (* [self.block_confirmations] *)

Lemma fold_visit_confirmed latest entries :
  forall seen acc,
    fold_left (visit c latest) entries (seen, acc)
    = (hashes (confirmed c latest seen entries) ∪ seen,
       acc ++ confirmed c latest seen entries).
Proof.
  unfold hashes.
  induction entries as [|event rest IH]; intros seen acc; simpl.
  - f_equal; [set_solver | by rewrite app_nil_r].
  - unfold visit at 2; simpl.
    destruct (decide (transactionHash event ∈ seen)) as [Hin|Hout].
    + apply IH.
    + destruct (c <=? latest - blockNumber event) eqn:Hdeep.
      * rewrite IH. simpl. f_equal; [set_solver | by rewrite <- app_assoc].
      * apply IH.
Qed.

Lemma confirm_loop_confirmed latest seen entries :
  confirm_loop c latest seen entries
  = (hashes (confirmed c latest seen entries) ∪ seen,
     confirmed c latest seen entries).
Proof. unfold confirm_loop. by rewrite fold_visit_confirmed. Qed.

Lemma confirmed_sublist latest entries :
  forall seen, sublist (confirmed c latest seen entries) entries.
Proof.
  induction entries as [|event rest IH]; intros seen; simpl; [constructor|].
  destruct (decide _); [by constructor|].
  destruct (_ <=? _); by constructor.
Qed.

Lemma confirmed_fresh latest entries :
  forall seen event,
    event ∈ confirmed c latest seen entries -> transactionHash event ∉ seen.
Proof.
  induction entries as [|x rest IH]; intros seen event; simpl.
  - by intros ?%elem_of_nil.
  - destruct (decide _) as [Hin|Hout]; [apply IH|].
    destruct (_ <=? _); [|apply IH].
    intros [->|Hrest]%elem_of_cons; [done|].
    apply IH in Hrest. set_solver.
Qed.

Lemma confirmed_deep latest entries :
  forall seen event,
    event ∈ confirmed c latest seen entries ->
    c <= latest - blockNumber event.
Proof.
  induction entries as [|x rest IH]; intros seen event; simpl.
  - by intros ?%elem_of_nil.
  - destruct (decide _) as [Hin|Hout]; [apply IH|].
    destruct (c <=? latest - blockNumber x) eqn:Hdeep; [|apply IH].
    intros [->|Hrest]%elem_of_cons; [lia | by eapply IH].
Qed.

Lemma confirmed_NoDup_hashes latest entries :
  forall seen, NoDup (transactionHash <$> confirmed c latest seen entries).
Proof.
  induction entries as [|x rest IH]; intros seen; simpl; [constructor|].
  destruct (decide _) as [Hin|Hout]; [apply IH|].
  destruct (_ <=? _); [|apply IH].
  simpl. constructor; [|apply IH].
  intros (y & Heq & Hy)%list_elem_of_fmap.
  apply confirmed_fresh in Hy. set_solver.
Qed.



(** What a poll does when the node answers with a height and entries. *)
Lemma get_confirmed_events_delivered seen env latest entries :
  get_latest_block_number (source env) = Return latest ->
  latest <> 0 ->
  new_entries env = Return entries ->
  get_confirmed_events c seen env
  = (Return (confirmed c latest seen entries),
     hashes (confirmed c latest seen entries) ∪ seen).
Proof.
  intros Hh Hz He. unfold get_confirmed_events, get_confirmed_events_body.
  rewrite Hh, He.
  replace (latest =? 0) with false by (symmetry; apply Z.eqb_neq; done).
  destruct entries as [|x rest].
  - simpl. f_equal. unfold hashes. set_solver.
  - by rewrite confirm_loop_confirmed.
Qed.

(** Every poll either hands out nothing and leaves the set alone, or
    hands out [confirmed] for the height and entries it was given. *)
Lemma get_confirmed_events_cases seen env :
  get_confirmed_events c seen env = (Return [], seen) \/
  exists latest entries,
    get_latest_block_number (source env) = Return latest /\
    latest <> 0 /\
    new_entries env = Return entries /\
    get_confirmed_events c seen env
    = (Return (confirmed c latest seen entries),
       hashes (confirmed c latest seen entries) ∪ seen).
Proof.
  destruct (get_latest_block_number (source env)) as [latest|e] eqn:Hh.
  - destruct (decide (latest = 0)) as [->|Hz].
    + left. unfold get_confirmed_events, get_confirmed_events_body.
      by rewrite Hh.
    + destruct (new_entries env) as [entries|e] eqn:He.
      * right. exists latest, entries. repeat split; try done.
        by apply get_confirmed_events_delivered.
      * left. unfold get_confirmed_events, get_confirmed_events_body.
        rewrite Hh, He.
        by replace (latest =? 0) with false by (symmetry; apply Z.eqb_neq; done).
  - left. unfold get_confirmed_events, get_confirmed_events_body. by rewrite Hh.
Qed.

End Listener.

Section ListenerRuns.

Variable c : Z.

Lemma get_confirmed_events_grows seen env :
  seen ⊆ (get_confirmed_events c seen env).2.
Proof.
  destruct (get_confirmed_events_cases c seen env)
    as [->|(latest & entries & _ & _ & _ & ->)]; simpl; set_solver.
Qed.

Lemma get_confirmed_events_returns seen env :
  (get_confirmed_events c seen env).1
  = Return (surfaced (get_confirmed_events c seen env).1).
Proof.
  destruct (get_confirmed_events_cases c seen env)
    as [->|(latest & entries & _ & _ & _ & ->)]; done.
Qed.

Lemma get_confirmed_events_state seen env :
  (get_confirmed_events c seen env).2
  = hashes (surfaced (get_confirmed_events c seen env).1) ∪ seen.
Proof.
  destruct (get_confirmed_events_cases c seen env)
    as [->|(latest & entries & _ & _ & _ & ->)]; simpl; [|done].
  unfold hashes. set_solver.
Qed.

Lemma get_confirmed_events_fresh seen env event :
  event ∈ surfaced (get_confirmed_events c seen env).1 ->
  transactionHash event ∉ seen.
Proof.
  destruct (get_confirmed_events_cases c seen env)
    as [->|(latest & entries & _ & _ & _ & ->)]; simpl.
  - by intros ?%elem_of_nil.
  - apply confirmed_fresh.
Qed.

Lemma get_confirmed_events_NoDup seen env :
  NoDup (transactionHash <$> surfaced (get_confirmed_events c seen env).1).
Proof.
  destruct (get_confirmed_events_cases c seen env)
    as [->|(latest & entries & _ & _ & _ & ->)]; simpl.
  - constructor.
  - apply confirmed_NoDup_hashes.
Qed.

Lemma elem_of_hashes event events :
  event ∈ events -> transactionHash event ∈ hashes events.
Proof.
  intros Hin. unfold hashes. apply elem_of_list_to_set, list_elem_of_fmap. eauto.
Qed.

(** Whatever a later poll hands out carries a hash the set did not hold
    when the polls began. *)
Lemma poll_cycles_fresh envs :
  forall seen j out event,
    poll_cycles c seen envs !! j = Some out ->
    event ∈ out ->
    transactionHash event ∉ seen.
Proof.
  induction envs as [|env rest IH]; intros seen j out event Hj Hin; [done|].
  destruct j as [|j]; simpl in Hj.
  - injection Hj as <-. by eapply get_confirmed_events_fresh.
  - intros Hseen. eapply IH; [done..|].
    by apply get_confirmed_events_grows.
Qed.



End ListenerRuns.

Lemma StronglySorted_sublist {A} (R : A -> A -> Prop) (l1 l2 : list A) :
  sublist l1 l2 -> StronglySorted R l2 -> StronglySorted R l1.
Proof.
  induction 1 as [|x l1 l2 Hsub IH|x l1 l2 Hsub IH]; intros Hs.
  - constructor.
  - apply StronglySorted_inv in Hs as [Hs Hall]. constructor; [by apply IH|].
    rewrite Forall_forall in Hall |- *. intros y Hy.
    apply Hall. by eapply sublist_subseteq.
  - apply StronglySorted_inv in Hs as [Hs _]. by apply IH.
Qed.

Lemma poll_state_grows c envs :
  forall seen, seen ⊆ poll_state c seen envs.
Proof.
  unfold poll_state.
  induction envs as [|env rest IH]; intros seen; simpl; [done|].
  etrans; [apply get_confirmed_events_grows | apply IH].
Qed.

Lemma poll_delivering c seen latest entries :
  latest <> 0 ->
  get_confirmed_events c seen (delivering latest entries)
  = (Return (confirmed c latest seen entries),
     hashes (confirmed c latest seen entries) ∪ seen).
Proof. intros Hz. by apply get_confirmed_events_delivered. Qed.




Lemma hashes_nil_union (seen : gset Z) : hashes [] ∪ seen = seen.
Proof. unfold hashes. set_solver. Qed.



(** ** Claims about the listener *)







(** C6. A transaction hash enters [processed_events] exactly when its
    event is first handed out as confirmed, and never leaves; an entry
    whose hash was handed out before is never handed out again, whatever
    the log fetch delivers in later cycles. *)
Theorem confirmation_state_invariant (c : Z) (seen : gset Z) :
  (forall env,
      let r := get_confirmed_events c seen env in
      r.2 = hashes (surfaced r.1) ∪ seen /\
      NoDup (transactionHash <$> surfaced r.1) /\
      (forall event, event ∈ surfaced r.1 -> transactionHash event ∉ seen)) /\
  (forall envs, seen ⊆ poll_state c seen envs) /\
  (forall envs i j first later event again,
      (i < j)%nat ->
      poll_cycles c seen envs !! i = Some first ->
      poll_cycles c seen envs !! j = Some later ->
      event ∈ first -> again ∈ later ->
      transactionHash again <> transactionHash event).
Proof.
  split; [|split].
  - intros env r. subst r. split; [|split].
    + apply get_confirmed_events_state.
    + apply get_confirmed_events_NoDup.
    + intros event. apply get_confirmed_events_fresh.
  - intros envs. apply poll_state_grows.
  - intros envs. revert seen.
    induction envs as [|env rest IH];
      intros seen i j first later event again Hij Hi Hj Hev Hag; [done|].
    destruct j as [|j]; [lia|]. simpl in Hj.
    destruct i as [|i]; simpl in Hi.
    + injection Hi as <-. intros Heq.
      eapply poll_cycles_fresh in Hag; [|done].
      apply Hag. rewrite get_confirmed_events_state, Heq.
      by apply elem_of_union_l, elem_of_hashes.
    + apply (IH (get_confirmed_events c seen env).2 i j first later event again);
        [lia | done..].
Qed.

Lemma scenario_redelivery_outputs :
  poll_cycles 12 ∅ scenario_redelivery = [[event_100]; [event_101]].
Proof. by vm_compute. Qed.

Lemma confirmation_state_invariant_witness :
  transactionHash event_101 <> transactionHash event_100.
Proof.
  destruct (confirmation_state_invariant 12 ∅) as (_ & _ & Hnever).
  apply (Hnever scenario_redelivery 0%nat 1%nat [event_100] [event_101]).
  - lia.
  - by rewrite scenario_redelivery_outputs.
  - by rewrite scenario_redelivery_outputs.
  - apply list_elem_of_singleton. reflexivity.
  - apply list_elem_of_singleton. reflexivity.
Defined.

(** C7. A poll never raises: when the node is unreachable, or the height
    query or the log fetch raises, the error is caught and the poll hands
    out the empty list, leaving [processed_events] as it was. *)
Theorem poll_never_raises (c : Z) (seen : gset Z) (env : PollEnv) :
  (exists out, (get_confirmed_events c seen env).1 = Return out) /\
  (forall e,
      (get_confirmed_events_body c seen env).1 = Raise e ->
      get_confirmed_events c seen env = (Return [], seen)) /\
  (alive (source env) = false -> reconnects (source env) = false ->
   get_confirmed_events c seen env = (Return [], seen)) /\
  (forall e,
      get_latest_block_number (source env) = Raise e ->
      (get_confirmed_events_body c seen env).1 = Raise e /\
      get_confirmed_events c seen env = (Return [], seen)) /\
  (forall latest e,
      get_latest_block_number (source env) = Return latest ->
      new_entries env = Raise e ->
      get_confirmed_events c seen env = (Return [], seen)).
Proof.
  split; [|split; [|split; [|split]]].
  - eexists. apply get_confirmed_events_returns.
  - intros e. unfold get_confirmed_events, get_confirmed_events_body.
    destruct (get_latest_block_number (source env)) as [latest|e1]; [|done].
    destruct (latest =? 0); [done|].
    destruct (new_entries env) as [[|x rest]|e2]; done.
  - intros Ha Hr.
    unfold get_confirmed_events, get_confirmed_events_body, get_latest_block_number.
    by rewrite Ha, Hr.
  - intros e He. unfold get_confirmed_events, get_confirmed_events_body.
    by rewrite He.
  - intros latest e Hh He.
    unfold get_confirmed_events, get_confirmed_events_body.
    rewrite Hh, He. by destruct (latest =? 0).
Qed.

Lemma poll_never_raises_witness :
  get_confirmed_events 12 ∅ {| source := disconnected; new_entries := Return [event_100] |}
  = (Return [], ∅).
Proof.
  destruct (poll_never_raises 12 ∅
              {| source := disconnected; new_entries := Return [event_100] |})
    as (_ & _ & Hdown & _).
  apply Hdown; reflexivity.
Defined.

(** C9, as the code has it: a poll hands out the confirmed events in the
    order in which the log fetch delivered them, without sorting; the
    result is in ascending order of block number and log index when the
    delivered entries are. *)
Theorem poll_keeps_arrival_order (c : Z) (seen : gset Z) (env : PollEnv)
    (entries : list LogReceipt) :
  new_entries env = Return entries ->
  sublist (surfaced (get_confirmed_events c seen env).1) entries /\
  (StronglySorted before entries ->
   StronglySorted before (surfaced (get_confirmed_events c seen env).1)).
Proof.
  intros He.
  assert (Hsub : sublist (surfaced (get_confirmed_events c seen env).1) entries).
  { destruct (get_confirmed_events_cases c seen env)
      as [->|(latest & entries' & _ & _ & He' & ->)]; simpl.
    - apply sublist_nil_l.
    - assert (entries' = entries) as -> by congruence.
      apply confirmed_sublist. }
  split; [done|]. by apply StronglySorted_sublist.
Qed.

Lemma poll_keeps_arrival_order_witness :
  sublist (surfaced (get_confirmed_events 12 ∅ out_of_order).1)
          [event_101; event_100].
Proof.
  apply (poll_keeps_arrival_order 12 ∅ out_of_order [event_101; event_100]).
  reflexivity.
Defined.

(** C9 fails as stated: two confirmed deposits delivered with block 101
    before block 100 are handed out in that order. *)
Lemma poll_order_counterexample :
  surfaced (get_confirmed_events 12 ∅ out_of_order).1 = [event_101; event_100] /\
  ~ StronglySorted before (surfaced (get_confirmed_events 12 ∅ out_of_order).1).
Proof.
  assert (Hout : surfaced (get_confirmed_events 12 ∅ out_of_order).1
                 = [event_101; event_100]) by (by vm_compute).
  split; [done|]. rewrite Hout. intros Hs.
  apply StronglySorted_inv in Hs as [_ Hall].
  apply Forall_cons in Hall as [Hb _].
  unfold before in Hb. simpl in Hb. lia.
Qed.

(** * The processor *)

Section Processor.

Variable cfg : ProcessorConfig.

Lemma accepts_or_rejects env : accepts env \/ rejects env.
Proof.
  unfold accepts, prepares, rejects.
  destruct (transaction_count env) as [n|e1]; [|right; eauto].
  destruct (gas_price env) as [p|e2]; [|right; eauto].
  destruct (build_transaction env) as [[]|e3]; [|right; eauto 6].
  destruct (estimate_gas env) as [g|e4]; [|right; eauto 8].
  destruct (sign_transaction env) as [[]|e5]; [|right; eauto 10].
  destruct (send_raw_transaction env) as [h|e6]; [|right; eauto 12].
  left. eauto 12.
Qed.

Lemma accepts_not_rejects env : accepts env -> rejects env -> False.
Proof.
  unfold accepts, prepares, rejects.
  intros (([n Hn] & [p Hp] & Hb & [g Hg] & Hs) & [h Hh]).
  intros [[e He]|[[e He]|[[e He]|[[e He]|[[e He]|[e He]]]]]]; congruence.
Qed.

(** The destination calls of an attempt start with the nonce query. *)
Lemma send_release_starts event env :
  exists rest,
    (send_release cfg event env []).2
    = GetTransactionCount (relayer_address cfg) :: rest.
Proof.
  unfold send_release, mbind, dest_bind, dbind, call, mret, dest_ret, dret.
  simpl.
  destruct (transaction_count env); [|eauto].
  destruct (gas_price env); [|eauto].
  destruct (build_transaction env); [|eauto].
  destruct (estimate_gas env); [|eauto].
  destruct (sign_transaction env); [|eauto].
  destruct (send_raw_transaction env); eauto.
Qed.

(** When the steps before the broadcast return, the transaction is sent,
    once. *)
Lemma send_release_prepared event env :
  prepares env -> broadcasts (send_release cfg event env []).2 = 1%nat.
Proof.
  intros ([n Hn] & [p Hp] & Hb & [g Hg] & Hs).
  unfold send_release, mbind, dest_bind, dbind, call, mret, dest_ret, dret.
  simpl. rewrite Hn, Hp, Hb, Hg, Hs.
  by destruct (send_raw_transaction env).
Qed.

Lemma send_release_accepted event env :
  accepts env -> exists tx, (send_release cfg event env []).1 = Return tx.
Proof.
  intros (([n Hn] & [p Hp] & Hb & [g Hg] & Hs) & [h Hh]).
  unfold send_release, mbind, dest_bind, dbind, call, mret, dest_ret, dret.
  simpl. rewrite Hn, Hp, Hb, Hg, Hs, Hh. eauto.
Qed.

Lemma send_release_rejected event env :
  rejects env -> exists e, (send_release cfg event env []).1 = Raise e.
Proof.
  unfold send_release, mbind, dest_bind, dbind, call, mret, dest_ret, dret.
  simpl.
  intros Hrej.
  destruct (transaction_count env) as [n|e1] eqn:H1; [|eauto].
  destruct (gas_price env) as [p|e2] eqn:H2; [|eauto].
  destruct (build_transaction env) as [[]|e3] eqn:H3; [|eauto].
  destruct (estimate_gas env) as [g|e4] eqn:H4; [|eauto].
  destruct (sign_transaction env) as [[]|e5] eqn:H5; [|eauto].
  destruct (send_raw_transaction env) as [h|e6] eqn:H6; [|eauto].
  exfalso.
  destruct Hrej as [[e He]|[[e He]|[[e He]|[[e He]|[[e He]|[e He]]]]]];
    congruence.
Qed.

Lemma relay_skipped ids event env :
  transactionId (args event) ∈ ids ->
  relay cfg ids event env = (Skipped, ids, []).
Proof. intros Hin. unfold relay. by rewrite decide_True. Qed.

Lemma relay_accepted ids event env :
  transactionId (args event) ∉ ids -> accepts env ->
  relay cfg ids event env
  = (Submitted, {[transactionId (args event)]} ∪ ids,
     (send_release cfg event env []).2) /\
  broadcasts (send_release cfg event env []).2 = 1%nat.
Proof.
  intros Hnew Hacc. split.
  - unfold relay. rewrite decide_False by done.
    destruct (send_release_accepted event env Hacc) as [tx Htx].
    destruct (send_release cfg event env []) as [r calls]. simpl in Htx.
    by rewrite Htx.
  - apply send_release_prepared, Hacc.
Qed.

Lemma relay_rejected ids event env :
  transactionId (args event) ∉ ids -> rejects env ->
  relay cfg ids event env = (Failed, ids, (send_release cfg event env []).2).
Proof.
  intros Hnew Hrej. unfold relay. rewrite decide_False by done.
  destruct (send_release_rejected event env Hrej) as [e He].
  destruct (send_release cfg event env []) as [r calls]. simpl in He.
  by rewrite He.
Qed.

(** The three ways a relay attempt can end. *)
Lemma relay_cases ids event env :
  let id := transactionId (args event) in
  (id ∈ ids /\ relay cfg ids event env = (Skipped, ids, [])) \/
  ((id ∉ ids) /\ accepts env /\
   relay cfg ids event env
   = (Submitted, {[id]} ∪ ids, (send_release cfg event env []).2)) \/
  ((id ∉ ids) /\ rejects env /\
   relay cfg ids event env = (Failed, ids, (send_release cfg event env []).2)).
Proof.
  intros id. destruct (decide (id ∈ ids)) as [Hin|Hnew].
  - left. split; [done|]. by apply relay_skipped.
  - right. destruct (accepts_or_rejects env) as [Hacc|Hrej].
    + left. split; [done|]. split; [done|].
      by destruct (relay_accepted ids event env Hnew Hacc) as [-> _].
    + right. split; [done|]. split; [done|]. by apply relay_rejected.
Qed.

End Processor.

Lemma healthy_dest_accepts nonce price gas tx_hash :
  accepts (healthy_dest nonce price gas tx_hash).
Proof. unfold accepts, prepares. simpl. eauto 10. Qed.

Lemma estimate_fails_rejects nonce price : rejects (estimate_fails nonce price).
Proof. unfold rejects. simpl. eauto 10. Qed.

Section ProcessorRuns.

Variable cfg : ProcessorConfig.
Variable id : Z.

Lemma relay_calls_recorded calls :
  forall ids,
    id ∈ ids -> carrying id calls ->
    relay_calls cfg ids calls = replicate (length calls) (Skipped, []).
Proof.
  induction calls as [|[event env] rest IH]; intros ids Hin Hsame; [done|].
  apply Forall_cons in Hsame as [Hid Hsame]. simpl in Hid.
  simpl. rewrite relay_skipped by (by rewrite Hid). simpl.
  f_equal. by apply IH.
Qed.

Lemma submitted_count_skipped n :
  submitted_count (replicate n (Skipped, [])) = 0%nat.
Proof. induction n as [|n IH]; [done|]. simpl. apply IH. Qed.

Lemma all_calls_skipped n : all_calls (replicate n (Skipped, [])) = [].
Proof. induction n as [|n IH]; [done|]. simpl. apply IH. Qed.

Lemma relay_calls_at_most_once calls :
  forall ids, carrying id calls ->
              (submitted_count (relay_calls cfg ids calls) <= 1)%nat.
Proof.
  induction calls as [|[event env] rest IH]; intros ids Hsame;
    [unfold submitted_count; simpl; lia|].
  apply Forall_cons in Hsame as [Hid Hsame]. simpl in Hid.
  simpl. unfold submitted_count. simpl.
  destruct (relay_cases cfg ids event env)
    as [[_ ->]|[(_ & _ & ->)|(_ & _ & ->)]]; simpl.
  - by apply IH.
  - rewrite relay_calls_recorded by (done || set_solver).
    fold (submitted_count (replicate (length rest) (Skipped, []))).
    rewrite submitted_count_skipped. lia.
  - by apply IH.
Qed.

Lemma relay_calls_then_skipped calls :
  forall ids i j trace r,
    carrying id calls -> (i < j)%nat ->
    relay_calls cfg ids calls !! i = Some (Submitted, trace) ->
    relay_calls cfg ids calls !! j = Some r ->
    r = (Skipped, []).
Proof.
  induction calls as [|[event env] rest IH];
    intros ids i j trace r Hsame Hij Hi Hj; [done|].
  apply Forall_cons in Hsame as [Hid Hsame]. simpl in Hid.
  destruct j as [|j]; [lia|]. simpl in Hj.
  destruct i as [|i]; simpl in Hi.
  - destruct (relay_cases cfg ids event env)
      as [[_ Hr]|[(_ & _ & Hr)|(_ & _ & Hr)]]; rewrite Hr in Hi, Hj;
      simpl in Hi, Hj; try done.
    rewrite relay_calls_recorded in Hj by (done || set_solver).
    by apply lookup_replicate in Hj as [-> _].
  - apply (IH (relay cfg ids event env).1.2 i j trace r); [done | lia | done..].
Qed.

Lemma relay_calls_exactly_once calls :
  forall ids,
    carrying id calls -> id ∉ ids ->
    Exists (fun call => accepts call.2) calls ->
    submitted_count (relay_calls cfg ids calls) = 1%nat.
Proof.
  induction calls as [|[event env] rest IH]; intros ids Hsame Hnew Hex.
  - by apply Exists_nil in Hex.
  - apply Forall_cons in Hsame as [Hid Hsame]. simpl in Hid.
    simpl. unfold submitted_count. simpl.
    destruct (relay_cases cfg ids event env)
      as [[Hin _]|[(_ & _ & ->)|(_ & Hrej & ->)]]; simpl.
    + by rewrite Hid in Hin.
    + rewrite relay_calls_recorded by (done || set_solver).
      fold (submitted_count (replicate (length rest) (Skipped, []))).
      by rewrite submitted_count_skipped.
    + apply IH; [done..|].
      apply Exists_cons in Hex as [Hacc|Hex]; [|done].
      exfalso. by eapply accepts_not_rejects.
Qed.

Lemma relay_calls_first_accepted event env rest ids :
  carrying id ((event, env) :: rest) -> id ∉ ids -> accepts env ->
  relay_calls cfg ids ((event, env) :: rest)
  = (Submitted, (send_release cfg event env []).2)
      :: replicate (length rest) (Skipped, []).
Proof.
  intros Hsame Hnew Hacc.
  apply Forall_cons in Hsame as [Hid Hsame]. simpl in Hid.
  simpl.
  destruct (relay_accepted cfg ids event env) as [-> _];
    [by rewrite Hid | done |].
  simpl. f_equal. apply relay_calls_recorded; [set_solver | done].
Qed.

End ProcessorRuns.

(** ** Claims about the processor *)

Lemma relay_calls_all_rejected cfg id calls :
  forall ids,
    carrying id calls -> id ∉ ids -> all_reject calls ->
    map fst (relay_calls cfg ids calls) = replicate (length calls) Failed.
Proof.
  induction calls as [|[event env] rest IH]; intros ids Hsame Hnew Hrej; [done|].
  apply Forall_cons in Hsame as [Hid Hsame]. simpl in Hid.
  apply Forall_cons in Hrej as [Hr Hrej]. simpl in Hr.
  simpl. rewrite relay_rejected by (by rewrite ?Hid). simpl.
  f_equal. by apply IH.
Qed.

(** C3, as the code has it: among calls that carry the same cross-chain
    id, whatever their transaction hashes, at most one ends as Submitted
    and every call after it ends as Skipped without calling the
    destination.  When the id is not yet recorded: exactly one call ends
    as Submitted if the destination accepts some attempt; if it accepts
    the first, the outcomes are Submitted followed by Skipped only, and
    the destination receives one broadcast; and if it rejects every
    attempt, every call ends as Failed. *)
Theorem relay_idempotent (cfg : ProcessorConfig) (ids : gset Z) (id : Z)
    (calls : list (LogReceipt * DestEnv)) :
  carrying id calls ->
  (submitted_count (relay_calls cfg ids calls) <= 1)%nat /\
  (forall i j trace r,
      (i < j)%nat ->
      relay_calls cfg ids calls !! i = Some (Submitted, trace) ->
      relay_calls cfg ids calls !! j = Some r ->
      r = (Skipped, [])) /\
  (id ∉ ids -> Exists (fun call => accepts call.2) calls ->
   submitted_count (relay_calls cfg ids calls) = 1%nat) /\
  (forall event env rest,
      id ∉ ids -> calls = (event, env) :: rest -> accepts env ->
      relay_calls cfg ids calls
      = (Submitted, (send_release cfg event env []).2)
          :: replicate (length rest) (Skipped, []) /\
      broadcasts (all_calls (relay_calls cfg ids calls)) = 1%nat) /\
  (id ∉ ids -> all_reject calls ->
   map fst (relay_calls cfg ids calls) = replicate (length calls) Failed).
Proof.
  intros Hsame. split; [|split; [|split; [|split]]]; cycle 4.
  { intros Hnew Hrej. by apply (relay_calls_all_rejected cfg id). }
  - by apply (relay_calls_at_most_once cfg id).
  - intros i j trace r Hij. by apply (relay_calls_then_skipped cfg id).
  - intros Hnew Hex. by apply (relay_calls_exactly_once cfg id).
  - intros event env rest Hnew -> Hacc.
    rewrite (relay_calls_first_accepted cfg id) by done.
    split; [done|].
    unfold all_calls. simpl.
    fold (all_calls (replicate (length rest) (@pair RelayResult _ Skipped []))).
    rewrite all_calls_skipped, app_nil_r.
    apply send_release_prepared, Hacc.
Qed.

Lemma scenario_B_carrying : carrying 171 scenario_B.
Proof. unfold carrying, scenario_B. repeat constructor. Qed.

Lemma relay_idempotent_witness :
  map fst (relay_calls sample_processor ∅ scenario_B) = [Submitted; Skipped] /\
  broadcasts (all_calls (relay_calls sample_processor ∅ scenario_B)) = 1%nat.
Proof.
  destruct (relay_idempotent sample_processor ∅ 171 scenario_B scenario_B_carrying)
    as (_ & _ & _ & Hfirst & _).
  destruct (Hfirst event_100 (healthy_dest 0 1 21000 77)
              [(event_100_resent, healthy_dest 1 1 21000 78)]) as [Hrs Hb].
  - apply not_elem_of_empty.
  - reflexivity.
  - apply healthy_dest_accepts.
  - split; [|exact Hb]. rewrite Hrs. reflexivity.
Defined.

(** C3 fails as stated: in Scenario C both calls for the same id end as
    Failed, none as Submitted, and nothing is broadcast. *)
Lemma relay_idempotent_counterexample :
  carrying 171 scenario_C /\
  map fst (relay_calls sample_processor ∅ scenario_C) = [Failed; Failed] /\
  submitted_count (relay_calls sample_processor ∅ scenario_C) = 0%nat /\
  broadcasts (all_calls (relay_calls sample_processor ∅ scenario_C)) = 0%nat.
Proof.
  split; [unfold carrying, scenario_C; repeat constructor|].
  by vm_compute.
Qed.

(** C5. When a step of the relay after the idempotency check raises, the
    call ends as Failed and [processed_source_tx_ids] is unchanged; a
    second call with the same event is not skipped: it queries the
    destination again, broadcasts once the steps before the broadcast
    return, and ends as Submitted when the destination accepts. *)
Theorem failed_relay_is_retryable (cfg : ProcessorConfig) (ids : gset Z)
    (event : LogReceipt) (env : DestEnv) :
  transactionId (args event) ∉ ids ->
  rejects env ->
  (relay cfg ids event env).1 = (Failed, ids) /\
  forall again,
    let second := relay cfg (relay cfg ids event env).1.2 event again in
    second.1.1 <> Skipped /\
    (exists rest, second.2 = GetTransactionCount (relayer_address cfg) :: rest) /\
    (prepares again -> broadcasts second.2 = 1%nat) /\
    (accepts again -> second.1.1 = Submitted).
Proof.
  intros Hnew Hrej. rewrite relay_rejected by done. simpl.
  split; [done|]. intros again.
  assert (Hcalls : (relay cfg ids event again).2
                   = (send_release cfg event again []).2).
  { destruct (relay_cases cfg ids event again)
      as [[Hin _]|[(_ & _ & ->)|(_ & _ & ->)]]; done. }
  split; [|split; [|split]].
  - destruct (relay_cases cfg ids event again)
      as [[Hin _]|[(_ & _ & ->)|(_ & _ & ->)]]; done.
  - rewrite Hcalls. apply send_release_starts.
  - intros Hprep. rewrite Hcalls. by apply send_release_prepared.
  - intros Hacc. by destruct (relay_accepted cfg ids event again) as [-> _].
Qed.

Lemma failed_relay_is_retryable_witness :
  (relay sample_processor ∅ event_100 (estimate_fails 0 1)).1 = (Failed, ∅) /\
  (relay sample_processor
     (relay sample_processor ∅ event_100 (estimate_fails 0 1)).1.2
     event_100 (healthy_dest 0 1 21000 77)).1.1 = Submitted.
Proof.
  destruct (failed_relay_is_retryable sample_processor ∅ event_100
              (estimate_fails 0 1)) as [Hfirst Hsecond].
  - apply not_elem_of_empty.
  - apply estimate_fails_rejects.
  - split; [exact Hfirst|].
    destruct (Hsecond (healthy_dest 0 1 21000 77)) as (_ & _ & _ & Hsub).
    apply Hsub, healthy_dest_accepts.
Defined.

(** C10. For an event whose cross-chain id is already recorded,
    [process_deposit_event] returns [True], as a fresh accepted broadcast
    does, without calling the destination and without changing the set;
    the boolean is [True] for Submitted and Skipped alike and [False]
    exactly for Failed. *)
Theorem skip_returns_true (cfg : ProcessorConfig) (ids : gset Z)
    (event : LogReceipt) (env : DestEnv) :
  (transactionId (args event) ∈ ids ->
   process_deposit_event cfg ids event env = (true, ids, [])) /\
  (transactionId (args event) ∉ ids -> accepts env ->
   (process_deposit_event cfg ids event env).1.1 = true /\
   (relay cfg ids event env).1.1 = Submitted) /\
  ((process_deposit_event cfg ids event env).1.1 = true <->
   (relay cfg ids event env).1.1 = Submitted \/
   (relay cfg ids event env).1.1 = Skipped) /\
  ((process_deposit_event cfg ids event env).1.1 = false <->
   (relay cfg ids event env).1.1 = Failed).
Proof.
  unfold process_deposit_event. split; [|split; [|split]].
  - intros Hin. by rewrite relay_skipped.
  - intros Hnew Hacc. by destruct (relay_accepted cfg ids event env) as [-> _].
  - simpl. destruct (relay cfg ids event env).1.1; simpl; naive_solver.
  - simpl. destruct (relay cfg ids event env).1.1; simpl; naive_solver.
Qed.

Lemma skip_returns_true_witness :
  process_deposit_event sample_processor {[171]} event_100 (estimate_fails 0 1)
  = (true, {[171]}, []) /\
  (process_deposit_event sample_processor ∅ event_100
     (healthy_dest 0 1 21000 77)).1.1 = true.
Proof.
  split.
  - destruct (skip_returns_true sample_processor {[171]} event_100
                (estimate_fails 0 1)) as (Hskip & _).
    apply Hskip, elem_of_singleton. reflexivity.
  - destruct (skip_returns_true sample_processor ∅ event_100
                (healthy_dest 0 1 21000 77)) as (_ & Hfresh & _).
    apply Hfresh.
    + apply not_elem_of_empty.
    + apply healthy_dest_accepts.
Defined.

(** * The monitor *)

Lemma Qltb_lt a b : Qltb a b = true <-> (a < b)%Q.
Proof.
  unfold Qltb. rewrite negb_true_iff, <- not_true_iff_false, Qle_bool_iff.
  split; [apply Qnot_le_lt | apply Qlt_not_le].
Qed.

Lemma Qltb_ge a b : Qltb a b = false <-> (b <= a)%Q.
Proof.
  unfold Qltb. rewrite negb_false_iff. apply Qle_bool_iff.
Qed.

(** ** Rounding *)

Lemma round53_Qeq x y : (x == y)%Q -> round53 x = round53 y.
Proof. intros H. unfold round53. by rewrite (Qred_complete x y H). Qed.

Lemma round_half_even_floor m : Qfloor m <= round_half_even m.
Proof.
  unfold round_half_even.
  destruct (Qcompare _ _); [destruct (Z.even _)|..]; lia.
Qed.

Lemma round_half_even_ge k m :
  (inject_Z k <= m)%Q -> k <= round_half_even m.
Proof.
  intros H. apply Qfloor_resp_le in H. rewrite Qfloor_Z in H.
  pose proof (round_half_even_floor m). lia.
Qed.

Lemma pow2_pos z : (0 < Qpower 2 z)%Q.
Proof. apply Qpower_0_lt. reflexivity. Qed.

Lemma pow2_inject z : 0 <= z -> (Qpower 2 z == inject_Z (2 ^ z))%Q.
Proof. intros H. symmetry. apply (Zpower_Qpower 2 z H). Qed.

Lemma binade_le x : (0 < x)%Q -> (Qpower 2 (binade x) <= x)%Q.
Proof.
  intros Hx. unfold binade.
  set (la := Z.log2 (Qnum x)). set (ld := Z.log2 (Z.pos (Qden x))).
  destruct (Qle_bool (Qpower 2 (la - ld)) x) eqn:Htest.
  - by apply Qle_bool_iff.
  - assert (Hn : 0 < Qnum x).
    { destruct x as [n d]. unfold Qlt in Hx. simpl in *. lia. }
    pose proof (Z.log2_spec (Qnum x) Hn) as [Hla _]. fold la in Hla.
    assert (Hd : 0 < Z.pos (Qden x)) by lia.
    pose proof (Z.log2_spec (Z.pos (Qden x)) Hd) as [_ Hld]. fold ld in Hld.
    assert (H0la : 0 <= la) by apply Z.log2_nonneg.
    assert (H0ld : 0 <= ld) by apply Z.log2_nonneg.
    replace (la - ld - 1) with (la - (ld + 1)) by lia.
    rewrite Qpower_minus by done.
    rewrite (pow2_inject la), (pow2_inject (ld + 1)) by lia.
    assert (Hx' : (x == inject_Z (Qnum x) / inject_Z (Z.pos (Qden x)))%Q).
    { destruct x as [n d]. simpl. apply Qmake_Qdiv. }
    rewrite Hx'.
    apply Qle_shift_div_r.
    { rewrite <- (Zlt_Qlt 0). apply Z.pow_pos_nonneg; lia. }
    unfold Qdiv. rewrite <- Qmult_assoc, (Qmult_comm (/ _)), Qmult_assoc.
    apply Qle_shift_div_l; [by rewrite <- (Zlt_Qlt 0)|].
    rewrite <- !inject_Z_mult, <- Zle_Qle.
    replace (ld + 1) with (Z.succ ld) by lia. nia.
Qed.

Lemma sixty_scaled u :
  u <= 2 -> (inject_Z (15 * 2 ^ (2 - u)) * Qpower 2 u == 60)%Q.
Proof.
  intros Hu. rewrite inject_Z_mult, <- (pow2_inject (2 - u)) by lia.
  rewrite <- Qmult_assoc, <- Qpower_plus by done.
  replace (2 - u + u) with 2 by lia. reflexivity.
Qed.

Lemma round53_pos_ge_60 x : (60 <= x)%Q -> (60 <= round53_pos x)%Q.
Proof.
  intros Hx. unfold round53_pos.
  set (u := binade x - 52).
  pose proof (pow2_pos u) as Hpos.
  destruct (Z_le_gt_dec u 2) as [Hu|Hu].
  - rewrite <- (sixty_scaled u Hu) at 1.
    apply Qmult_le_compat_r; [|by apply Qlt_le_weak].
    rewrite <- Zle_Qle. apply round_half_even_ge.
    apply Qle_shift_div_l; [done|]. by rewrite sixty_scaled.
  - assert (Hb : (Qpower 2 (binade x) <= x)%Q) by (apply binade_le; lra).
    assert (Hm : (inject_Z (2 ^ 52) <= x / Qpower 2 u)%Q).
    { apply Qle_shift_div_l; [done|].
      rewrite <- (pow2_inject 52), <- Qpower_plus by done.
      by replace (52 + u) with (binade x) by (unfold u; lia). }
    apply round_half_even_ge in Hm.
    assert (Hu8 : (8 <= Qpower 2 u)%Q).
    { rewrite (pow2_inject u) by lia. change 8%Q with (inject_Z (2 ^ 3)).
      rewrite <- Zle_Qle. apply Z.pow_le_mono_r; lia. }
    rewrite Zle_Qle in Hm.
    assert (H8 : (8 <= inject_Z (round_half_even (x / Qpower 2 u)))%Q).
    { eapply Qle_trans; [|exact Hm]. by vm_compute. }
    assert (H64 : (8 * 8 <= inject_Z (round_half_even (x / Qpower 2 u)) * Qpower 2 u)%Q).
    { apply Qmult_le_compat_nonneg; split; (done || by vm_compute). }
    eapply Qle_trans; [|exact H64]. by vm_compute.
Qed.

Lemma round53_ge_60 x : (60 <= x)%Q -> (60 <= round53 x)%Q.
Proof.
  intros Hx. unfold round53.
  assert (Hr : (60 <= Qred x)%Q) by (by rewrite Qred_correct).
  destruct (Qnum (Qred x)) eqn:Hn.
  - exfalso. destruct (Qred x) as [n d]. simpl in Hn. subst n.
    unfold Qle in Hr. simpl in Hr. lia.
  - by apply round53_pos_ge_60.
  - exfalso. destruct (Qred x) as [n d]. simpl in Hn. subst n.
    unfold Qle in Hr. simpl in Hr. lia.
Qed.

(** A difference that is at least 60 seconds stays so when rounded. *)
Lemma elapsed_due now last :
  (checkin_interval <= now - last)%Q -> (checkin_interval <= elapsed now last)%Q.
Proof. apply round53_ge_60. Qed.

(** The difference between a reading and the same reading [d] later. *)
Lemma elapsed_after t d : elapsed (t + d) t = round53 d.
Proof. apply round53_Qeq. ring. Qed.

Section Monitor.

Variable relayer_id : Z.

Lemma report_status_early last st blk pending env :
  (elapsed (current_time env) last < checkin_interval)%Q ->
  report_status relayer_id last st blk pending env = (Return tt, last, []).
Proof.
  intros Hearly. unfold report_status.
  by replace (Qltb _ _) with true by (symmetry; by apply Qltb_lt).
Qed.

Lemma report_status_answered last st blk pending env code :
  (checkin_interval <= current_time env - last)%Q ->
  post env = Return code ->
  exists payload,
    report_status relayer_id last st blk pending env
    = (Return tt, current_time env, [payload]) /\ status payload = st.
Proof.
  intros Hdue Hpost. unfold report_status.
  replace (Qltb _ _) with false by (symmetry; by apply Qltb_ge, elapsed_due).
  rewrite Hpost. eauto.
Qed.

Lemma report_status_unreachable last st blk pending env :
  (checkin_interval <= current_time env - last)%Q ->
  post env = Raise RequestException ->
  exists payload,
    report_status relayer_id last st blk pending env
    = (Return tt, last, [payload]) /\ status payload = st.
Proof.
  intros Hdue Hpost. unfold report_status.
  replace (Qltb _ _) with false by (symmetry; by apply Qltb_ge, elapsed_due).
  rewrite Hpost. eauto.
Qed.

End Monitor.

(** ** Claims about the monitor *)

(** C4, as the code has it: a report that is due hands one payload to
    the monitoring service; [last_checkin] becomes the current time when
    the service answers, whatever the status code, and is left as it was
    when the request raises [RequestException] (service unreachable),
    which is swallowed.  So of three reports 20 seconds apart, the first
    being due, one push is attempted when the first gets an answer, and
    three when the service is unreachable each time. *)
Theorem checkin_after_response (relayer_id : Z) (last : Q) (st : Status)
    (blk pending : Z) (env : SinkEnv) :
  (checkin_interval <= current_time env - last)%Q ->
  (forall code,
      post env = Return code ->
      (report_status relayer_id last st blk pending env).1
      = (Return tt, current_time env) /\
      length (report_status relayer_id last st blk pending env).2 = 1%nat) /\
  (post env = Raise RequestException ->
   (report_status relayer_id last st blk pending env).1 = (Return tt, last) /\
   length (report_status relayer_id last st blk pending env).2 = 1%nat) /\
  (forall code p2 p3,
      push_attempts
        (report_calls relayer_id last
           (spaced (current_time env) (Return code) p2 p3)) = 1%nat) /\
  push_attempts
    (report_calls relayer_id last
       (spaced (current_time env) (Raise RequestException)
          (Raise RequestException) (Raise RequestException))) = 3%nat.
Proof.
  intros Hdue. unfold checkin_interval in Hdue.
  split; [|split; [|split]].
  - intros code Hpost.
    destruct (report_status_answered relayer_id last st blk pending env code)
      as (payload & -> & _); done.
  - intros Hpost.
    destruct (report_status_unreachable relayer_id last st blk pending env)
      as (payload & -> & _); done.
  - intros code p2 p3. unfold spaced, push_attempts. cbn [report_calls].
    destruct (report_status_answered relayer_id last OPERATIONAL 0 0
                {| current_time := current_time env; post := Return code |} code)
      as (payload & -> & _); [done..|].
    cbn [fst snd].
    rewrite !report_status_early; [done| |];
      simpl; rewrite elapsed_after; by vm_compute.
  - unfold spaced, push_attempts. cbn [report_calls].
    destruct (report_status_unreachable relayer_id last OPERATIONAL 0 0
                {| current_time := current_time env;
                   post := Raise RequestException |})
      as (p1 & -> & _); [done..|].
    cbn [fst snd].
    destruct (report_status_unreachable relayer_id last OPERATIONAL 0 0
                {| current_time := (current_time env + 20)%Q;
                   post := Raise RequestException |})
      as (p2 & -> & _); [unfold checkin_interval; simpl; lra | done |].
    cbn [fst snd].
    destruct (report_status_unreachable relayer_id last OPERATIONAL 0 0
                {| current_time := (current_time env + 40)%Q;
                   post := Raise RequestException |})
      as (p3 & -> & _); [unfold checkin_interval; simpl; lra | done |].
    done.
Qed.

Lemma checkin_after_response_witness :
  push_attempts
    (report_calls 9 0 (spaced 1000 (Return 503) (Raise RequestException)
                         (Raise RequestException))) = 1%nat /\
  push_attempts (report_calls 9 0 scenario_D) = 3%nat.
Proof.
  destruct (checkin_after_response 9 0 OPERATIONAL 0 0 (responding 1000 503))
    as (_ & _ & Hone & Hthree).
  - by vm_compute.
  - split; [apply (Hone 503) | apply Hthree].
Defined.

(** C4 fails as stated: in Scenario D the first push is attempted and
    [last_checkin] stays 0, and a push is attempted by each of the three
    calls. *)
Lemma checkin_counterexample :
  (report_status 9 0 OPERATIONAL 0 0 (unreachable 1000)).1 = (Return tt, 0%Q) /\
  length (report_status 9 0 OPERATIONAL 0 0 (unreachable 1000)).2 = 1%nat /\
  push_attempts (report_calls 9 0 scenario_D) = 3%nat.
Proof. by vm_compute. Qed.

(** * The main loop *)

Section MainLoop.

Variable cfg : Config.










(** Sleeping changes neither the state nor what was observed. *)
Lemma loop_pass_same st env :
  (loop_pass cfg st env).2 = (loop_body cfg st env).2 /\
  (loop_pass cfg st env).1.2 = (loop_body cfg st env).1.2.
Proof.
  unfold loop_pass. by destruct (loop_body cfg st env) as [[[u|e] st'] obs].
Qed.



End MainLoop.

(** ** Claims about the main loop *)




(** C8: the code at the failing input.  The monitor checked in at time
    1000; 15 seconds later the height query of line 359 raises.  The loop
    ends as Fatal, and the ERROR report of line 371 returns at the
    interval test without handing anything to the monitoring service. *)
Lemma fatal_report_suppressed :
  let run := main_loop sample_config started [quiet_cycle; crashing_cycle] in
  run.1.1 = Fatal Web3Exception /\
  length (pushes_with OPERATIONAL run.2) = 1%nat /\
  pushes_with ERROR run.2 = [] /\
  report_status (relayer_address sample_processor) (last_checkin run.1.2)
    ERROR 0 0 (on_error crashing_cycle)
  = (Return tt, last_checkin run.1.2, []).
Proof. by vm_compute. Qed.

(** * The configuration *)

Section Configuration.

Variable py_int : string -> option Z.
Variable environ : gmap string string.

Lemma load_required_first_unusable before var after :
  forall config,
    Forall (usable environ) before ->
    ~ usable environ var ->
    load_required environ (before ++ var :: after) config = inl (ConfigError var).
Proof.
  induction before as [|x rest IH]; intros config Hbefore Hvar; simpl.
  - destruct (environ !! var) as [value|] eqn:Hv; [|done].
    destruct (decide (value = ""%string)); [done|].
    exfalso. apply Hvar. by exists value.
  - apply Forall_cons in Hbefore as [(value & Hx & Hne) Hbefore].
    rewrite Hx. rewrite decide_False by done. by apply IH.
Qed.

Lemma load_required_failure vars :
  forall config err,
    load_required environ vars config = inl err ->
    exists before var after,
      vars = before ++ var :: after /\
      Forall (usable environ) before /\
      ~ usable environ var /\
      err = ConfigError var.
Proof.
  induction vars as [|x rest IH]; intros config err Hload; simpl in Hload; [done|].
  destruct (environ !! x) as [value|] eqn:Hx.
  - destruct (decide (value = ""%string)) as [->|Hne].
    + injection Hload as <-. exists [], x, rest.
      split; [done|]. split; [constructor|]. split; [|done].
      intros (v & Hv & Hnv). congruence.
    + apply IH in Hload as (before & var & after & -> & Hb & Hvar & ->).
      exists (x :: before), var, after.
      split; [done|]. split; [|done].
      constructor; [by exists value | done].
  - injection Hload as <-. exists [], x, rest.
    split; [done|]. split; [constructor|]. split; [|done].
    intros (v & Hv & Hnv). congruence.
Qed.

Lemma load_required_success vars :
  forall config,
    Forall (usable environ) vars ->
    exists config',
      load_required environ vars config = inr config' /\
      (forall var, var ∈ vars ->
         exists value, environ !! var = Some value /\ value <> ""%string /\
                       config' !! var = Some (Str value)) /\
      (forall key, key ∉ vars -> config' !! key = config !! key).
Proof.
  induction vars as [|x rest IH]; intros config Hall; simpl.
  - exists config. split; [done|]. split; [|done].
    by intros var ?%elem_of_nil.
  - apply Forall_cons in Hall as [(value & Hx & Hne) Hall].
    rewrite Hx. rewrite decide_False by done.
    destruct (IH (<[x := Str value]> config) Hall) as (config' & -> & Hin & Hout).
    exists config'. split; [done|]. split.
    + intros var Hvar. destruct (decide (var ∈ rest)) as [Hr|Hr]; [by apply Hin|].
      apply elem_of_cons in Hvar as [->|Hvar]; [|done].
      exists value. rewrite Hout by done. by rewrite lookup_insert_eq.
    + intros key Hkey. apply not_elem_of_cons in Hkey as [Hne' Hkey].
      rewrite Hout by done. by rewrite lookup_insert_ne.
Qed.

End Configuration.

(** X1. [load_configuration] raises [ConfigError] exactly when one of
    the six required variables is unset or empty, and the error names the
    first such variable in the order of [required_vars]; the two optional
    variables are not looked at in that case. *)
Theorem load_configuration_reports_first_missing
    (py_int : string -> option Z) (environ : gmap string string) (var : string) :
  load_configuration py_int environ = inl (ConfigError var) <->
  exists before after,
    required_vars = before ++ var :: after /\
    Forall (usable environ) before /\
    ~ usable environ var.
Proof.
  unfold load_configuration. split.
  - destruct (load_required environ required_vars ∅) as [err|config] eqn:Hload.
    + intros [= ->].
      apply load_required_failure in Hload
        as (before & var' & after & Heq & Hb & Hvar & [= <-]).
      by exists before, after.
    + destruct (py_int _); [|done]. by destruct (py_int _).
  - intros (before & after & Heq & Hb & Hvar).
    rewrite Heq. by rewrite load_required_first_unusable.
Qed.

Lemma load_configuration_reports_first_missing_witness :
  load_configuration int_of_digits
    (<["RELAYER_PRIVATE_KEY"%string := ""%string]>
       (delete "HEALTHCHECK_URL"%string sample_environ))
  = inl (ConfigError "RELAYER_PRIVATE_KEY").
Proof.
  apply load_configuration_reports_first_missing.
  exists ["SOURCE_CHAIN_RPC_URL"; "DESTINATION_CHAIN_RPC_URL";
          "SOURCE_BRIDGE_CONTRACT_ADDRESS";
          "DESTINATION_BRIDGE_CONTRACT_ADDRESS"]%string,
         ["HEALTHCHECK_URL"%string].
  split; [reflexivity|]. split.
  - repeat constructor; eexists; (split; [by vm_compute | done]).
  - intros (value & Hv & Hne). vm_compute in Hv. congruence.
Defined.

(** X2. When the six required variables are set and non-empty and the
    texts of the two optional ones parse, [load_configuration] returns a
    dictionary that maps each required variable to its text in the
    environment and the two optional keys to the parsed integers; an
    optional variable that is unset is read as 15 (poll interval) or 12
    (confirmations). *)
Theorem load_configuration_returns_environment
    (py_int : string -> option Z) (environ : gmap string string)
    (poll_interval depth : Z) :
  Forall (usable environ) required_vars ->
  py_int (getenv environ "POLL_INTERVAL_SECONDS" "15") = Some poll_interval ->
  py_int (getenv environ "BLOCK_CONFIRMATIONS" "12") = Some depth ->
  exists config,
    load_configuration py_int environ = inr config /\
    (forall var, var ∈ required_vars ->
       exists value, environ !! var = Some value /\
                     config_str config var = Some value) /\
    config_int config "POLL_INTERVAL_SECONDS" = Some poll_interval /\
    config_int config "BLOCK_CONFIRMATIONS" = Some depth /\
    (environ !! "POLL_INTERVAL_SECONDS"%string = None ->
     py_int "15"%string = Some poll_interval) /\
    (environ !! "BLOCK_CONFIRMATIONS"%string = None ->
     py_int "12"%string = Some depth).
Proof.
  intros Hall Hpoll Hdepth. unfold load_configuration.
  destruct (load_required_success environ required_vars ∅ Hall)
    as (config & -> & Hin & Hout).
  rewrite Hpoll, Hdepth. eexists. split; [done|].
  split; [|split; [|split; [|split]]].
  - intros var Hvar. destruct (Hin var Hvar) as (value & Hv & _ & Hc).
    exists value. split; [done|]. unfold config_str.
    assert (var <> "BLOCK_CONFIRMATIONS"%string /\
            var <> "POLL_INTERVAL_SECONDS"%string) as [H1 H2].
    { unfold required_vars in Hvar.
      repeat (apply elem_of_cons in Hvar as [->|Hvar]; [done|]).
      by apply elem_of_nil in Hvar. }
    rewrite !lookup_insert_ne by done. by rewrite Hc.
  - unfold config_int. rewrite lookup_insert_ne by done.
    by rewrite lookup_insert_eq.
  - unfold config_int. by rewrite lookup_insert_eq.
  - intros Hunset. unfold getenv in Hpoll. by rewrite Hunset in Hpoll.
  - intros Hunset. unfold getenv in Hdepth. by rewrite Hunset in Hdepth.
Qed.

Lemma sample_environ_usable : Forall (usable sample_environ) required_vars.
Proof. repeat constructor; eexists; (split; [by vm_compute | done]). Qed.

Lemma load_configuration_returns_environment_witness :
  exists config,
    load_configuration int_of_digits sample_environ = inr config /\
    config_int config "POLL_INTERVAL_SECONDS" = Some 15 /\
    config_int config "BLOCK_CONFIRMATIONS" = Some 12.
Proof.
  destruct (load_configuration_returns_environment int_of_digits
              sample_environ 15 12)
    as (config & Hload & _ & Hp & Hd & _).
  - apply sample_environ_usable.
  - reflexivity.
  - reflexivity.
  - by exists config.
Defined.

(** X3. An optional variable that is set to a text [int()] rejects (the
    empty text, for one) is not replaced by its default: once the required
    variables are there, [load_configuration] raises [ValueError], which
    is not a [ConfigError]. *)
Theorem load_configuration_bad_optional
    (py_int : string -> option Z) (environ : gmap string string) (text : string) :
  Forall (usable environ) required_vars ->
  py_int text = None ->
  (environ !! "POLL_INTERVAL_SECONDS"%string = Some text ->
   load_configuration py_int environ = inl (ValueError text)) /\
  (environ !! "BLOCK_CONFIRMATIONS"%string = Some text ->
   is_Some (py_int (getenv environ "POLL_INTERVAL_SECONDS" "15")) ->
   load_configuration py_int environ = inl (ValueError text)).
Proof.
  intros Hall Hbad. unfold load_configuration.
  destruct (load_required_success environ required_vars ∅ Hall)
    as (config & -> & _ & _).
  split.
  - intros Hset.
    assert (getenv environ "POLL_INTERVAL_SECONDS" "15" = text) as ->
      by (unfold getenv; by rewrite Hset).
    by rewrite Hbad.
  - intros Hset [p Hp]. rewrite Hp.
    assert (getenv environ "BLOCK_CONFIRMATIONS" "12" = text) as ->
      by (unfold getenv; by rewrite Hset).
    by rewrite Hbad.
Qed.

Lemma load_configuration_bad_optional_witness :
  load_configuration int_of_digits
    (<["POLL_INTERVAL_SECONDS"%string := ""%string]> sample_environ)
  = inl (ValueError "").
Proof.
  destruct (load_configuration_bad_optional int_of_digits
              (<["POLL_INTERVAL_SECONDS"%string := ""%string]> sample_environ)
              ""%string) as [Hpoll _].
  - repeat constructor; eexists; (split; [by vm_compute | done]).
  - reflexivity.
  - apply Hpoll. by vm_compute.
Defined.

(** * The connector *)

Lemma connect_succeeds conn env :
  web3 (_connect conn env) = true ->
  http_provider env = Return tt /\ inject_middleware env = Return tt /\
  handshake env = true /\
  exists n, eth_chain_id env = Return n /\
            _connect conn env = {| web3 := true; connector_chain_id := Some n |}.
Proof.
  unfold _connect.
  destruct (http_provider env) as [[]|e1]; [|done].
  destruct (inject_middleware env) as [[]|e2]; [|done].
  destruct (handshake env); [|done].
  destruct (eth_chain_id env) as [n|e3]; [|done].
  intros _. eauto 10.
Qed.

Lemma connect_fails conn env :
  web3 (_connect conn env) = false -> _connect conn env = disconnect conn.
Proof.
  unfold _connect.
  destruct (http_provider env) as [[]|e1]; [|done].
  destruct (inject_middleware env) as [[]|e2]; [|done].
  destruct (handshake env); [|done].
  by destruct (eth_chain_id env) as [n|e3].
Qed.

Lemma connected_has_chain_id env :
  web3 (new_connector env) = true ->
  exists n, eth_chain_id env = Return n /\
            connector_chain_id (new_connector env) = Some n.
Proof.
  intros Hup. apply connect_succeeds in Hup as (_ & _ & _ & n & Hn & Heq).
  exists n. split; [done|]. unfold new_connector. by rewrite Heq.
Qed.

(** X4. [_connect] never raises and never leaves a half-built client:
    [self.web3] is a client afterwards exactly when building it, injecting
    the middleware, the handshake and the chain id query all succeeded,
    and then [self.chain_id] is the node's answer; in every other case
    [self.web3] is [None] and [self.chain_id] is what it was.  So a
    connector whose [web3] is a client has a chain id. *)
Theorem connect_all_or_nothing (conn : Connector) (env : ConnectEnv) :
  (web3 (_connect conn env) = true <->
   http_provider env = Return tt /\ inject_middleware env = Return tt /\
   handshake env = true /\ exists n, eth_chain_id env = Return n) /\
  (forall n, web3 (_connect conn env) = true -> eth_chain_id env = Return n ->
             connector_chain_id (_connect conn env) = Some n) /\
  (web3 (_connect conn env) = false ->
   connector_chain_id (_connect conn env) = connector_chain_id conn) /\
  (web3 (new_connector env) = true ->
   is_Some (connector_chain_id (new_connector env))).
Proof.
  split; [|split; [|split]].
  - split.
    + intros Hup. apply connect_succeeds in Hup as (H1 & H2 & H3 & n & Hn & _).
      eauto 10.
    + intros (H1 & H2 & H3 & n & Hn). unfold _connect.
      by rewrite H1, H2, H3, Hn.
  - intros n Hup Hn.
    apply connect_succeeds in Hup as (_ & _ & _ & m & Hm & ->).
    simpl. congruence.
  - intros Hdown. by rewrite connect_fails.
  - intros Hup. apply connected_has_chain_id in Hup as (n & _ & ->). by eexists.
Qed.

Lemma connect_all_or_nothing_witness :
  connector_chain_id (_connect {| web3 := true; connector_chain_id := Some 5 |}
                        node_down) = Some 5.
Proof.
  destruct (connect_all_or_nothing {| web3 := true; connector_chain_id := Some 5 |}
              node_down) as (_ & _ & Hkeep & _).
  apply Hkeep. reflexivity.
Defined.

(** X5. [get_latest_block_number] raises only when [web3.eth.block_number]
    raises on a connected client; when the client is down and the
    reconnection fails it returns 0 with [self.web3] set to [None], without
    asking for the block number.  Its result is the one of the stateless
    function of the same name on the answers [height_env_of] derives. *)
Theorem height_query_on_connector (conn : Connector) (env : HeightCall) :
  (get_latest_block_number_on conn env).1
  = get_latest_block_number (height_env_of conn env) /\
  (forall e, (get_latest_block_number_on conn env).1 = Raise e ->
             eth_block_number env = Raise e) /\
  (is_connected conn (probe_before env) = false ->
   is_connected (_connect conn (reconnect env)) (probe_after env) = false ->
   get_latest_block_number_on conn env
   = (Return 0, _connect conn (reconnect env))) /\
  (is_connected conn (probe_before env) = false ->
   web3 (_connect conn (reconnect env)) = false ->
   get_latest_block_number_on conn env = (Return 0, disconnect conn)).
Proof.
  unfold get_latest_block_number_on, get_latest_block_number, height_env_of.
  simpl. split; [|split; [|split]].
  - destruct (is_connected conn (probe_before env)); [done|].
    by destruct (is_connected _ (probe_after env)).
  - intros e. destruct (is_connected conn (probe_before env)); [done|].
    by destruct (is_connected _ (probe_after env)).
  - by intros -> ->.
  - intros -> Hdown. unfold is_connected. rewrite Hdown. simpl.
    by rewrite connect_fails.
Qed.

Lemma height_query_on_connector_witness :
  get_latest_block_number_on {| web3 := true; connector_chain_id := Some 1 |}
    {| probe_before := false; reconnect := node_down; probe_after := true;
       eth_block_number := Return 200 |}
  = (Return 0, {| web3 := false; connector_chain_id := Some 1 |}).
Proof.
  destruct (height_query_on_connector
              {| web3 := true; connector_chain_id := Some 1 |}
              {| probe_before := false; reconnect := node_down;
                 probe_after := true; eth_block_number := Return 200 |})
    as (_ & _ & _ & Hdown).
  apply Hdown; reflexivity.
Defined.

(** X6. A connector that lost its node recovers by itself: when the
    client is down at the time of the query and the reconnection goes
    through, [get_latest_block_number] answers with the node's block
    number (or its error), and the connector holds a client and the chain
    id the node gave. *)
Theorem height_query_reconnects (conn : Connector) (env : HeightCall) (n : Z) :
  is_connected conn (probe_before env) = false ->
  http_provider (reconnect env) = Return tt ->
  inject_middleware (reconnect env) = Return tt ->
  handshake (reconnect env) = true ->
  eth_chain_id (reconnect env) = Return n ->
  probe_after env = true ->
  get_latest_block_number_on conn env
  = (eth_block_number env, {| web3 := true; connector_chain_id := Some n |}).
Proof.
  intros Hdown H1 H2 H3 H4 Hprobe.
  unfold get_latest_block_number_on. rewrite Hdown.
  unfold _connect. rewrite H1, H2, H3, H4. unfold is_connected. simpl.
  by rewrite Hprobe.
Qed.

Lemma height_query_reconnects_witness :
  get_latest_block_number_on {| web3 := false; connector_chain_id := None |}
    {| probe_before := true; reconnect := node_up 1; probe_after := true;
       eth_block_number := Return 200 |}
  = (Return 200, {| web3 := true; connector_chain_id := Some 1 |}).
Proof.
  apply (height_query_reconnects {| web3 := false; connector_chain_id := None |}
           {| probe_before := true; reconnect := node_up 1; probe_after := true;
              eth_block_number := Return 200 |} 1); reflexivity.
Defined.

(** * More on the listener *)

Section ListenerCoverage.

Variable c : Z.

Lemma confirmed_covers latest entries :
  forall seen event,
    event ∈ entries ->
    c <= latest - blockNumber event ->
    transactionHash event ∈ hashes (confirmed c latest seen entries) ∪ seen.
Proof.
  unfold hashes.
  induction entries as [|x rest IH]; intros seen event Hin Hdeep.
  - by apply elem_of_nil in Hin.
  - simpl. apply elem_of_cons in Hin as [->|Hin].
    + destruct (decide _) as [Hseen|Hnew]; [set_solver|].
      replace (c <=? latest - blockNumber x) with true
        by (symmetry; apply Z.leb_le; lia).
      set_solver.
    + destruct (decide _) as [Hseen|Hnew]; [by apply IH|].
      destruct (_ <=? _); [|by apply IH].
      specialize (IH ({[transactionHash x]} ∪ seen) event Hin Hdeep).
      set_solver.
Qed.

Lemma confirmed_pending latest entries seen h :
  h ∉ seen ->
  (forall event, event ∈ entries -> transactionHash event = h ->
                 latest - blockNumber event < c) ->
  h ∉ hashes (confirmed c latest seen entries) ∪ seen.
Proof.
  intros Hnew Hearly [Hin|Hin]%elem_of_union; [|done].
  apply elem_of_list_to_set, list_elem_of_fmap in Hin as (event & -> & Hev).
  pose proof (confirmed_deep c latest entries seen event Hev) as Hdeep.
  assert (Hentry : event ∈ entries)
    by (eapply sublist_subseteq; [apply confirmed_sublist | done]).
  specialize (Hearly event Hentry eq_refl). lia.
Qed.

End ListenerCoverage.

(** X7. After a poll at a height other than 0, the hash of every
    delivered entry that has enough confirmations is in
    [processed_events], whether the entry was handed out now or earlier;
    and a hash that was not in the set and whose delivered entries all lack
    confirmations is not put into it, so such an entry can still be handed
    out by a later poll. *)
Theorem poll_marks_exactly_the_confirmed (c : Z) (seen : gset Z) (env : PollEnv)
    (latest : Z) (entries : list LogReceipt) :
  get_latest_block_number (source env) = Return latest ->
  latest <> 0 ->
  new_entries env = Return entries ->
  (forall event, event ∈ entries -> c <= latest - blockNumber event ->
                 transactionHash event ∈ (get_confirmed_events c seen env).2) /\
  (forall h, h ∉ seen ->
             (forall event, event ∈ entries -> transactionHash event = h ->
                            latest - blockNumber event < c) ->
             h ∉ (get_confirmed_events c seen env).2).
Proof.
  intros Hh Hz He.
  rewrite (get_confirmed_events_delivered c seen env latest entries) by done.
  simpl. split.
  - intros event. apply confirmed_covers.
  - intros h. apply confirmed_pending.
Qed.

Lemma poll_marks_exactly_the_confirmed_witness :
  transactionHash event_100 ∈
    (get_confirmed_events 12 ∅ (delivering 112 [event_101; event_100])).2 /\
  (transactionHash event_101 ∉
    (get_confirmed_events 12 ∅ (delivering 112 [event_101; event_100])).2).
Proof.
  destruct (poll_marks_exactly_the_confirmed 12 ∅
              (delivering 112 [event_101; event_100]) 112 [event_101; event_100])
    as [Hin Hout]; [reflexivity | lia | reflexivity |].
  split.
  - apply Hin; [|simpl; lia].
    apply elem_of_cons. right. apply list_elem_of_singleton. reflexivity.
  - apply Hout; [apply not_elem_of_empty|].
    intros event Hev Hhash.
    apply elem_of_cons in Hev as [->|Hev]; [simpl; lia|].
    apply list_elem_of_singleton in Hev as ->. simpl in Hhash. lia.
Defined.

(** X8. The listener tells entries apart by transaction hash only: when
    a transaction logged two deposits and both are delivered with enough
    confirmations, the poll hands out the first and drops the second, and
    no later poll hands the second out, whatever is delivered. *)
Theorem second_log_of_transaction_dropped (c : Z) (seen : gset Z) (latest : Z)
    (first second : LogReceipt) (later : list PollEnv) :
  transactionHash second = transactionHash first ->
  second <> first ->
  transactionHash first ∉ seen ->
  latest <> 0 ->
  c <= latest - blockNumber first ->
  (get_confirmed_events c seen (delivering latest [first; second])).1
  = Return [first] /\
  forall j out,
    poll_cycles c seen (delivering latest [first; second] :: later) !! j = Some out ->
    second ∉ out.
Proof.
  intros Hsame Hne Hnew Hz Hdeep.
  assert (Hout : confirmed c latest seen [first; second] = [first]).
  { simpl. rewrite decide_False by done.
    replace (c <=? latest - blockNumber first) with true
      by (symmetry; apply Z.leb_le; lia).
    rewrite decide_True; [done|]. rewrite Hsame. set_solver. }
  split.
  - rewrite poll_delivering by done. simpl in Hout |- *. by rewrite Hout.
  - intros [|j] out Hj Hin; simpl in Hj.
    + injection Hj as <-. rewrite poll_delivering in Hin by done.
      simpl in Hout, Hin. rewrite Hout in Hin.
      by apply list_elem_of_singleton in Hin.
    + eapply poll_cycles_fresh in Hin; [|done].
      apply Hin. rewrite poll_delivering by done.
      simpl in Hout |- *. rewrite Hout, Hsame.
      apply elem_of_union_l, elem_of_hashes, list_elem_of_singleton. done.
Qed.

Lemma second_log_of_transaction_dropped_witness :
  (get_confirmed_events 12 ∅ (delivering 112 [event_100; event_100_second_log])).1
  = Return [event_100].
Proof.
  apply (second_log_of_transaction_dropped 12 ∅ 112 event_100
           event_100_second_log []).
  - reflexivity.
  - discriminate.
  - apply not_elem_of_empty.
  - lia.
  - simpl. lia.
Defined.

(** * More on the processor *)

Section ProcessorCalls.

Variable cfg : ProcessorConfig.

(** The transaction that an attempt sends, if it gets that far. *)
Lemma send_release_sent event env tx :
  tx ∈ sent (send_release cfg event env []).2 ->
  prepares env /\
  SignTransaction tx ∈ (send_release cfg event env []).2 /\
  exists nonce price gas,
    transaction_count env = Return nonce /\
    gas_price env = Return price /\
    estimate_gas env = Return gas /\
    tx = {| tx_from := relayer_address cfg; tx_nonce := nonce;
            tx_gasPrice := price; tx_chainId := chain_id cfg;
            tx_recipient := recipient (args event);
            tx_amount := amount (args event);
            tx_sourceTransactionId := transactionId (args event);
            tx_gas := Some gas |}.
Proof.
  unfold prepares, send_release, mbind, dest_bind, dbind, call, mret, dest_ret, dret.
  simpl.
  destruct (transaction_count env) as [n|e1]; [|by intros ?%elem_of_nil].
  destruct (gas_price env) as [p|e2]; [|by intros ?%elem_of_nil].
  destruct (build_transaction env) as [[]|e3]; [|by intros ?%elem_of_nil].
  destruct (estimate_gas env) as [g|e4]; [|by intros ?%elem_of_nil].
  destruct (sign_transaction env) as [[]|e5]; [|by intros ?%elem_of_nil].
  assert (Hsent : forall A (r : outcome A * list DestCall) tx',
             r.2 = [GetTransactionCount (relayer_address cfg); GasPrice;
                    BuildTransaction
                      {| tx_from := relayer_address cfg; tx_nonce := n;
                         tx_gasPrice := p; tx_chainId := chain_id cfg;
                         tx_recipient := recipient (args event);
                         tx_amount := amount (args event);
                         tx_sourceTransactionId := transactionId (args event);
                         tx_gas := None |};
                    EstimateGas
                      {| tx_from := relayer_address cfg; tx_nonce := n;
                         tx_gasPrice := p; tx_chainId := chain_id cfg;
                         tx_recipient := recipient (args event);
                         tx_amount := amount (args event);
                         tx_sourceTransactionId := transactionId (args event);
                         tx_gas := None |};
                    SignTransaction tx'; SendRawTransaction tx'] ->
             tx ∈ sent r.2 -> tx = tx' /\ SignTransaction tx ∈ r.2).
  { intros A r tx' -> Hin. simpl in Hin.
    apply list_elem_of_singleton in Hin as ->. split; [done|].
    do 4 right. left. }
  intros Hin.
  destruct (send_raw_transaction env) as [h|e6];
    (eapply Hsent in Hin as [-> Hsign]; [|reflexivity]);
    (split; [eauto 10|]); (split; [exact Hsign|]); eauto 10.
Qed.

Lemma send_release_broadcasts event env :
  (broadcasts (send_release cfg event env []).2 <= 1)%nat /\
  (broadcasts (send_release cfg event env []).2 = 1%nat -> prepares env).
Proof.
  unfold prepares, broadcasts, send_release, mbind, dest_bind, dbind, call,
    mret, dest_ret, dret.
  simpl.
  destruct (transaction_count env) as [n|e1]; [|simpl; split; [lia|done]].
  destruct (gas_price env) as [p|e2]; [|simpl; split; [lia|done]].
  destruct (build_transaction env) as [[]|e3]; [|simpl; split; [lia|done]].
  destruct (estimate_gas env) as [g|e4]; [|simpl; split; [lia|done]].
  destruct (sign_transaction env) as [[]|e5]; [|simpl; split; [lia|done]].
  destruct (send_raw_transaction env) as [h|e6]; simpl; (split; [lia|]);
    intros _; eauto 10.
Qed.

Lemma relay_calls_of ids event env :
  (relay cfg ids event env).2 = [] \/
  ((transactionId (args event) ∉ ids) /\
   (relay cfg ids event env).2 = (send_release cfg event env []).2).
Proof.
  destruct (relay_cases cfg ids event env)
    as [[_ ->]|[(Hnew & _ & ->)|(Hnew & _ & ->)]]; auto.
Qed.

End ProcessorCalls.

(** X9. Whatever an attempt broadcasts is the release of the event it
    was given: the transaction handed to [send_raw_transaction] pays the
    event's amount to the event's recipient under the event's cross-chain
    id, is sent from the relayer's address on the configured chain with
    the nonce and gas price the node gave, carries the node's gas estimate
    as its gas limit, and is the transaction that was signed. *)
Theorem broadcast_is_the_release (cfg : ProcessorConfig) (ids : gset Z)
    (event : LogReceipt) (env : DestEnv) (tx : ReleaseTransaction) :
  tx ∈ sent (relay cfg ids event env).2 ->
  tx_recipient tx = recipient (args event) /\
  tx_amount tx = amount (args event) /\
  tx_sourceTransactionId tx = transactionId (args event) /\
  tx_from tx = relayer_address cfg /\
  tx_chainId tx = chain_id cfg /\
  transaction_count env = Return (tx_nonce tx) /\
  gas_price env = Return (tx_gasPrice tx) /\
  (exists gas, estimate_gas env = Return gas /\ tx_gas tx = Some gas) /\
  SignTransaction tx ∈ (relay cfg ids event env).2.
Proof.
  destruct (relay_calls_of cfg ids event env) as [->|[_ ->]].
  - by intros ?%elem_of_nil.
  - intros Hin.
    apply send_release_sent in Hin
      as (_ & Hsign & nonce & price & gas & Hn & Hp & Hg & ->).
    simpl. eauto 12.
Qed.

Lemma broadcast_is_the_release_witness :
  tx_recipient
    {| tx_from := 9; tx_nonce := 0; tx_gasPrice := 1; tx_chainId := 5;
       tx_recipient := 2; tx_amount := 5; tx_sourceTransactionId := 171;
       tx_gas := Some 21000 |} = recipient (args event_100).
Proof.
  apply (broadcast_is_the_release sample_processor ∅ event_100
           (healthy_dest 0 1 21000 77)).
  vm_compute. left.
Defined.

(** X10. An attempt sends at most one broadcast, and sends it only after
    the nonce, the gas price, the built transaction, the gas estimate and
    the signature were all obtained for an id that is not yet recorded; a
    skipped event causes no call to the destination at all. *)
Theorem broadcast_only_when_prepared (cfg : ProcessorConfig) (ids : gset Z)
    (event : LogReceipt) (env : DestEnv) :
  (broadcasts (relay cfg ids event env).2 <= 1)%nat /\
  (broadcasts (relay cfg ids event env).2 = 1%nat <->
   (transactionId (args event) ∉ ids) /\ prepares env) /\
  ((relay cfg ids event env).1.1 = Skipped <->
   transactionId (args event) ∈ ids) /\
  ((relay cfg ids event env).1.1 = Skipped -> (relay cfg ids event env).2 = []).
Proof.
  destruct (send_release_broadcasts cfg event env) as [Hle Hprep].
  split; [|split; [|split]].
  - destruct (relay_calls_of cfg ids event env) as [->|[_ ->]];
      [unfold broadcasts; simpl; lia | done].
  - split.
    + destruct (relay_calls_of cfg ids event env) as [->|[Hnew ->]]; [done|].
      intros Hone. auto.
    + intros [Hnew Hp].
      destruct (relay_calls_of cfg ids event env) as [Hnil|[_ ->]].
      * destruct (relay_cases cfg ids event env)
          as [[Hin _]|[(_ & _ & Hr)|(_ & _ & Hr)]]; [done|..];
          rewrite Hr in Hnil; simpl in Hnil;
          pose proof (send_release_prepared cfg event env Hp) as Hb;
          rewrite Hnil in Hb; done.
      * by apply send_release_prepared.
  - destruct (relay_cases cfg ids event env)
      as [[Hin ->]|[(Hnew & _ & ->)|(Hnew & _ & ->)]]; simpl; naive_solver.
  - destruct (relay_cases cfg ids event env)
      as [[Hin ->]|[(Hnew & _ & ->)|(Hnew & _ & ->)]]; simpl; naive_solver.
Qed.

Lemma broadcast_only_when_prepared_witness :
  broadcasts (relay sample_processor ∅ event_100 (send_fails 0 1 21000)).2 = 1%nat.
Proof.
  destruct (broadcast_only_when_prepared sample_processor ∅ event_100
              (send_fails 0 1 21000)) as (_ & Hiff & _).
  apply Hiff. split; [apply not_elem_of_empty|].
  unfold prepares. simpl. eauto 10.
Defined.

(** X11. When [send_raw_transaction] itself raises, the attempt ends as
    Failed after the transaction was handed to the node, and the id is not
    recorded: a second call for the same event on an accepting destination
    is Submitted, so two broadcasts releasing the same deposit reach the
    destination. *)
Theorem failed_broadcast_is_sent_again (cfg : ProcessorConfig) (ids : gset Z)
    (event : LogReceipt) (env again : DestEnv) (e : exn) :
  transactionId (args event) ∉ ids ->
  prepares env ->
  send_raw_transaction env = Raise e ->
  accepts again ->
  map fst (relay_calls cfg ids [(event, env); (event, again)])
  = [Failed; Submitted] /\
  broadcasts (all_calls (relay_calls cfg ids [(event, env); (event, again)]))
  = 2%nat /\
  Forall (fun tx => tx_sourceTransactionId tx = transactionId (args event) /\
                    tx_recipient tx = recipient (args event) /\
                    tx_amount tx = amount (args event))
         (sent (all_calls (relay_calls cfg ids [(event, env); (event, again)]))).
Proof.
  intros Hnew Hprep Hsend Hacc.
  assert (Hrej : rejects env) by (unfold rejects; eauto 10).
  simpl. rewrite (relay_rejected cfg ids event env) by done. simpl.
  destruct (relay_accepted cfg ids event again Hnew Hacc) as [-> Hone].
  simpl. split; [done|]. unfold all_calls. simpl. rewrite app_nil_r.
  split.
  - unfold broadcasts in *. rewrite List.filter_app, length_app.
    fold (broadcasts (send_release cfg event env []).2).
    rewrite (send_release_prepared cfg event env Hprep). by rewrite Hone.
  - unfold sent. rewrite omap_app. apply Forall_app. split;
      apply Forall_forall; intros tx Hin;
      apply send_release_sent in Hin as (_ & _ & n & p & g & _ & _ & _ & ->);
      done.
Qed.

Lemma failed_broadcast_is_sent_again_witness :
  broadcasts
    (all_calls (relay_calls sample_processor ∅
                  [(event_100, send_fails 0 1 21000);
                   (event_100, healthy_dest 0 1 21000 77)])) = 2%nat.
Proof.
  apply (failed_broadcast_is_sent_again sample_processor ∅ event_100
           (send_fails 0 1 21000) (healthy_dest 0 1 21000 77) Web3Exception).
  - apply not_elem_of_empty.
  - unfold prepares. simpl. eauto 10.
  - reflexivity.
  - apply healthy_dest_accepts.
Defined.

Lemma prefix_0x (k : string) : String.prefix "0x" ("0x" ++ k) = true.
Proof. simpl. by destruct k. Qed.

(** X12. The [0x] prefix of the relayer key is optional: the key handed
    to [from_key] always starts with [0x], normalising twice changes
    nothing, and a processor built from a key with the prefix added is the
    one built from the key as given. *)
Theorem key_prefix_is_optional (conn : Connector) (key : string)
    (env : ProcessorInit) :
  String.prefix "0x" (normalize_key key) = true /\
  normalize_key (normalize_key key) = normalize_key key /\
  (normalize_key key = key \/ normalize_key key = ("0x" ++ key)%string) /\
  new_processor conn (normalize_key key) env = new_processor conn key env /\
  (forall pc, new_processor conn key env = Return pc ->
              from_key env (normalize_key key) = Return (relayer_address pc) /\
              chain_id pc = chain_id_of conn).
Proof.
  assert (Hpre : String.prefix "0x" (normalize_key key) = true).
  { unfold normalize_key. destruct (String.prefix "0x" key) eqn:Hk; [done|].
    apply prefix_0x. }
  assert (Hidem : normalize_key (normalize_key key) = normalize_key key).
  { unfold normalize_key at 1. by rewrite Hpre. }
  split; [done|]. split; [done|]. split; [|split].
  - unfold normalize_key. destruct (String.prefix "0x" key); auto.
  - unfold new_processor. by rewrite Hidem.
  - intros pc. unfold new_processor.
    destruct (get_contract _ _ _); [|done].
    destruct (from_key env (normalize_key key)); [|done].
    by intros [= <-].
Qed.

Lemma key_prefix_is_optional_witness :
  from_key good_processor_init (normalize_key "ab") = Return 9 /\
  normalize_key "ab" = "0xab"%string.
Proof.
  destruct (key_prefix_is_optional (new_connector (node_up 5)) "ab"
              good_processor_init) as (_ & _ & _ & _ & Hpc).
  destruct (Hpc {| relayer_address := 9; chain_id := 5 |}) as [Hkey _].
  - reflexivity.
  - split; [exact Hkey | reflexivity].
Defined.

(** * More on the monitor *)

Lemma report_calls_quiet relayer_id last calls :
  Forall (fun call : Status * Z * Z * SinkEnv =>
            (elapsed (current_time call.2) last < checkin_interval)%Q) calls ->
  report_calls relayer_id last calls = replicate (length calls) [].
Proof.
  induction calls as [|[[[st blk] pending] env] rest IH]; intros Hall; [done|].
  apply Forall_cons in Hall as [Hearly Hall]. simpl in Hearly.
  simpl. rewrite report_status_early by done. simpl. f_equal. by apply IH.
Qed.

Lemma push_attempts_quiet n : push_attempts (replicate n []) = 0%nat.
Proof. unfold push_attempts. induction n as [|n IH]; [done|]. apply IH. Qed.

(** X13. After a check-in that the monitoring service answered at time
    [t], every report for which the difference of line 296, computed on
    doubles, between its clock reading and [t] is below 60 is dropped
    without a request, however many there are and whatever their status:
    a due report followed by any number of such reports makes exactly one
    request. *)
Theorem one_push_per_interval (relayer_id : Z) (last : Q) (st : Status)
    (blk pending : Z) (env : SinkEnv) (code : Z)
    (rest : list (Status * Z * Z * SinkEnv)) :
  (checkin_interval <= elapsed (current_time env) last)%Q ->
  post env = Return code ->
  Forall (fun call : Status * Z * Z * SinkEnv =>
            (elapsed (current_time call.2) (current_time env)
             < checkin_interval)%Q) rest ->
  report_calls relayer_id last ((st, blk, pending, env) :: rest)
  = (report_status relayer_id last st blk pending env).2
      :: replicate (length rest) [] /\
  push_attempts (report_calls relayer_id last ((st, blk, pending, env) :: rest))
  = 1%nat.
Proof.
  intros Hdue Hpost Hrest. cbn [report_calls].
  assert (Hr : exists payload,
             report_status relayer_id last st blk pending env
             = (Return tt, current_time env, [payload])).
  { unfold report_status.
    replace (Qltb _ _) with false by (symmetry; by apply Qltb_ge).
    rewrite Hpost. eauto. }
  destruct Hr as [payload Hr].
  rewrite Hr. cbn [fst snd]. rewrite report_calls_quiet by done.
  split; [done|]. unfold push_attempts. simpl.
  fold (push_attempts (replicate (length rest) [])).
  by rewrite push_attempts_quiet.
Qed.

Lemma one_push_per_interval_witness :
  push_attempts
    (report_calls 9 0
       [(OPERATIONAL, 112, 0, responding 1000 200);
        (OPERATIONAL, 113, 1, responding 1015 200);
        (ERROR, 0, 0, responding 1059 200)]) = 1%nat.
Proof.
  apply (one_push_per_interval 9 0 OPERATIONAL 112 0 (responding 1000 200) 200
           [(OPERATIONAL, 113, 1, responding 1015 200);
            (ERROR, 0, 0, responding 1059 200)]).
  - by vm_compute.
  - reflexivity.
  - repeat constructor; by vm_compute.
Defined.

Lemma int_of_floor (q : Q) :
  (0 <= q)%Q ->
  (inject_Z (int_of q) <= q)%Q /\ (q < inject_Z (int_of q + 1))%Q.
Proof.
  intros Hq. assert (Hfloor : int_of q = Qfloor q).
  { destruct q as [n d]. unfold int_of, Qfloor. simpl.
    apply Z.quot_div_nonneg; [|lia].
    unfold Qle in Hq. simpl in Hq. lia. }
  rewrite Hfloor. split; [apply Qfloor_le | apply Qlt_floor].
Qed.

(** X14. A call of [report_status] makes at most one request, and makes
    one exactly when the difference of line 296, computed on doubles, is
    not below 60, which it is not whenever the exact difference of the two
    readings is at least 60; the payload then carries the relayer id,
    status, block and count it was given, and as its time stamp the whole
    seconds of the clock. *)
Theorem payload_of_report (relayer_id : Z) (last : Q) (st : Status)
    (blk pending : Z) (env : SinkEnv) :
  (length (report_status relayer_id last st blk pending env).2 <= 1)%nat /\
  (length (report_status relayer_id last st blk pending env).2 = 1%nat <->
   (checkin_interval <= elapsed (current_time env) last)%Q) /\
  ((checkin_interval <= current_time env - last)%Q ->
   length (report_status relayer_id last st blk pending env).2 = 1%nat) /\
  forall payload,
    payload ∈ (report_status relayer_id last st blk pending env).2 ->
    relayerId payload = relayer_id /\
    status payload = st /\
    lastSourceBlock payload = blk /\
    pendingTransactions payload = pending /\
    ((0 <= current_time env)%Q ->
     (inject_Z (timestamp payload) <= current_time env)%Q /\
     (current_time env < inject_Z (timestamp payload + 1))%Q).
Proof.
  assert (Hgate_iff :
    length (report_status relayer_id last st blk pending env).2 = 1%nat <->
    (checkin_interval <= elapsed (current_time env) last)%Q).
  { unfold report_status.
    destruct (Qltb (elapsed (current_time env) last) checkin_interval) eqn:Hgate.
    - apply Qltb_lt in Hgate. simpl. split; [done|].
      intros Hdue. exfalso. revert Hgate Hdue. apply Qlt_not_le.
    - apply Qltb_ge in Hgate. by destruct (post env) as [code|[]]. }
  split; [|split; [done|split]].
  - unfold report_status. destruct (Qltb _ _); [simpl; lia|].
    destruct (post env) as [code|[]]; simpl; lia.
  - intros Hdue. by apply Hgate_iff, elapsed_due.
  - unfold report_status. destruct (Qltb _ _).
    + by intros payload ?%elem_of_nil.
    + assert (Hone : forall (r : outcome unit * Q) (pl payload : Payload),
                 payload ∈ (r, [pl]).2 -> payload = pl).
      { intros r pl payload Hin. by apply list_elem_of_singleton in Hin. }
      destruct (post env) as [code|[]];
        intros payload Hin; apply Hone in Hin as ->; simpl;
        repeat (split; [done|]); apply int_of_floor.
Qed.

Lemma payload_of_report_witness :
  length (report_status 9 (5404319552844595 # 18014398509481984) OPERATIONAL
            112 0 (responding (4243235273913139 # 70368744177664) 200)).2
  = 1%nat /\
  ((4243235273913139 # 70368744177664) - (5404319552844595 # 18014398509481984)
   < checkin_interval)%Q.
Proof.
  destruct (payload_of_report 9 (5404319552844595 # 18014398509481984)
              OPERATIONAL 112 0
              (responding (4243235273913139 # 70368744177664) 200))
    as (_ & Hgate & _).
  split; [apply Hgate|]; by vm_compute.
Defined.

(** * More on the main loop *)

Section Releases.

Variable cfg : Config.
Variable id : Z.

Lemma releases_for_app obs1 obs2 :
  releases_for id (obs1 ++ obs2) = releases_for id obs1 ++ releases_for id obs2.
Proof. apply List.filter_app. Qed.

Lemma releases_for_pushed payloads : releases_for id (map Pushed payloads) = [].
Proof. induction payloads as [|p rest IH]; [done|]. apply IH. Qed.

Lemma releases_for_cons o obs :
  releases_for id (o :: obs)
  = if is_release_for id o then o :: releases_for id obs else releases_for id obs.
Proof. reflexivity. Qed.

Lemma process_all_unfold ids answers event rest :
  process_all (processor cfg) ids answers (event :: rest)
  = let r := process_deposit_event (processor cfg) ids event (answers event) in
    let r' := process_all (processor cfg) r.1.2 answers rest in
    (r'.1, Relayed event r.1.1 r.2 :: r'.2).
Proof. reflexivity. Qed.

(** One pass of the [for] loop: the set grows, holds the id of every
    release made, and allows one release per id. *)
Lemma process_all_releases answers events :
  forall ids,
    let r := process_all (processor cfg) ids answers events in
    ids ⊆ r.1 /\
    (id ∈ ids -> releases_for id r.2 = []) /\
    (length (releases_for id r.2) <= 1)%nat /\
    (releases_for id r.2 <> [] -> id ∈ r.1).
Proof.
  induction events as [|event rest IH]; intros ids.
  - simpl. split; [done|]. split; [done|]. split; [simpl; lia | done].
  - rewrite process_all_unfold. unfold process_deposit_event. cbv zeta.
    destruct (relay_cases (processor cfg) ids event (answers event))
      as [[Hin ->]|[(Hnew & Hacc & ->)|(Hnew & Hrej & ->)]];
      cbn [fst snd returned]; rewrite releases_for_cons;
      cbn [is_release_for andb].
    + change (broadcasts []) with 0%nat. rewrite andb_false_r. apply IH.
    + destruct (IH ({[transactionId (args event)]} ∪ ids))
        as (Hsub & Hnone & Hone & Hrec).
      rewrite (send_release_prepared (processor cfg) event (answers event))
        by apply Hacc.
      change (0 <? 1)%nat with true. rewrite andb_true_r.
      split; [set_solver|].
      destruct (decide (transactionId (args event) = id)) as [Heq|Hne].
      * rewrite bool_decide_eq_true_2 by done.
        rewrite Hnone by set_solver.
        split; [by rewrite <- Heq|]. split; [simpl; lia|]. intros _.
        apply Hsub. set_solver.
      * rewrite bool_decide_eq_false_2 by done.
        split; [intros Hid; apply Hnone; set_solver|]. by split.
    + apply IH.
Qed.

Lemma loop_body_releases st env :
  let r := loop_body cfg st env in
  processed_source_tx_ids st ⊆ processed_source_tx_ids r.1.2 /\
  (id ∈ processed_source_tx_ids st -> releases_for id r.2 = []) /\
  (length (releases_for id r.2) <= 1)%nat /\
  (releases_for id r.2 <> [] -> id ∈ processed_source_tx_ids r.1.2).
Proof.
  unfold loop_body.
  destruct (get_confirmed_events _ _ _).1 as [events|e]; simpl;
    [|split; [done|]; split; [done|]; split; [lia | done]].
  pose proof (process_all_releases (destination env) events
                (processed_source_tx_ids st)) as Hall. simpl in Hall.
  destruct (get_latest_block_number (height env)); simpl; [|done].
  by rewrite releases_for_app, releases_for_pushed, app_nil_r.
Qed.

Lemma main_loop_released envs :
  forall st,
    id ∈ processed_source_tx_ids st ->
    releases_for id (main_loop cfg st envs).2 = [].
Proof.
  induction envs as [|env rest IH]; intros st Hin; [done|].
  destruct (loop_body_releases st env) as (Hsub & Hnone & _ & _).
  specialize (Hnone Hin).
  destruct (loop_pass_same cfg st env) as [Hobs Hst].
  rewrite <- Hobs in Hnone. rewrite <- Hst in Hsub. simpl.
  destruct (loop_pass cfg st env) as [[[u|e] st'] obs]; simpl in Hsub, Hnone |- *.
  - destruct (interrupted env); simpl; [done|].
    rewrite releases_for_app, Hnone, IH; [done|]. by apply Hsub.
  - by rewrite releases_for_app, releases_for_pushed, Hnone.
Qed.

Lemma main_loop_releases_once envs :
  forall st, (length (releases_for id (main_loop cfg st envs).2) <= 1)%nat.
Proof.
  induction envs as [|env rest IH]; intros st; [simpl; lia|].
  destruct (loop_body_releases st env) as (_ & _ & Hone & Hrec).
  destruct (loop_pass_same cfg st env) as [Hsame Hst].
  rewrite <- Hsame in Hone, Hrec. rewrite <- Hst in Hrec. simpl.
  destruct (loop_pass cfg st env) as [[[u|e] st'] obs]; simpl in Hone, Hrec |- *.
  - destruct (interrupted env); simpl; [done|].
    rewrite releases_for_app, length_app.
    destruct (releases_for id obs) as [|o os] eqn:Hobs; [apply IH|].
    rewrite main_loop_released by (by apply Hrec).
    simpl in Hone |- *. lia.
  - by rewrite releases_for_app, releases_for_pushed, app_nil_r.
Qed.

End Releases.

(** X15. Over any run of the main loop, whatever the two chains and the
    monitoring service answer, at most one relay ends with an accepted
    broadcast for a given cross-chain id, and none does for an id that
    was already recorded, even when the source chain logs the same id
    under several transaction hashes. *)
Theorem one_release_per_id (cfg : Config) (st : Relayer) (envs : list CycleEnv)
    (id : Z) :
  (length (releases_for id (main_loop cfg st envs).2) <= 1)%nat /\
  (id ∈ processed_source_tx_ids st ->
   releases_for id (main_loop cfg st envs).2 = []).
Proof.
  split; [apply main_loop_releases_once | apply main_loop_released].
Qed.

Lemma one_release_per_id_witness :
  releases_for 171
    (main_loop sample_config
       {| processed_events := ∅; processed_source_tx_ids := {[171]};
          last_checkin := 0%Q |} [retry_cycle]).2 = [].
Proof.
  destruct (one_release_per_id sample_config
              {| processed_events := ∅; processed_source_tx_ids := {[171]};
                 last_checkin := 0%Q |} [retry_cycle] 171) as [_ Hnone].
  apply Hnone. simpl. apply elem_of_singleton. reflexivity.
Defined.

Section Fatal.

Variable cfg : Config.

(** When [report_status] raises, and what it hands to the service. *)
Lemma report_status_raises relayer_id last st blk pending env e :
  (report_status relayer_id last st blk pending env).1.1 = Raise e <->
  (checkin_interval <= elapsed (current_time env) last)%Q /\
  post env = Raise e /\ e <> RequestException.
Proof.
  unfold report_status.
  destruct (Qltb (elapsed (current_time env) last) checkin_interval) eqn:Hgate.
  - apply Qltb_lt in Hgate. simpl. split; [done|].
    intros (Hdue & _). exfalso. revert Hgate Hdue. apply Qlt_not_le.
  - apply Qltb_ge in Hgate.
    destruct (post env) as [code|[]]; simpl; split;
      try done; try (intros [= <-]; done); try (by intros (_ & [= <-] & _));
      try (by intros (_ & [= <-] & Hne)); by intros (_ & [=] & _).
Qed.

Lemma report_status_pushed relayer_id last st blk pending env :
  ((elapsed (current_time env) last < checkin_interval)%Q /\
   report_status relayer_id last st blk pending env = (Return tt, last, [])) \/
  ((checkin_interval <= elapsed (current_time env) last)%Q /\
   exists payload,
     (report_status relayer_id last st blk pending env).2 = [payload] /\
     status payload = st /\
     ((report_status relayer_id last st blk pending env).1.2 = last \/
      (report_status relayer_id last st blk pending env).1.2 = current_time env)).
Proof.
  unfold report_status.
  destruct (Qltb (elapsed (current_time env) last) checkin_interval) eqn:Hgate.
  - left. by apply Qltb_lt in Hgate.
  - right. apply Qltb_ge in Hgate. split; [done|].
    destruct (post env) as [code|[]]; simpl; eauto 10.
Qed.

Lemma pushes_with_app s obs1 obs2 :
  pushes_with s (obs1 ++ obs2) = pushes_with s obs1 ++ pushes_with s obs2.
Proof. apply List.filter_app. Qed.

Lemma pushes_with_relayed s answers events :
  forall ids, pushes_with s (process_all (processor cfg) ids answers events).2 = [].
Proof. induction events as [|event rest IH]; intros ids; [done|]. apply IH. Qed.

Lemma pushes_with_report s relayer_id last st blk pending env :
  s <> st ->
  pushes_with s (map Pushed (report_status relayer_id last st blk pending env).2)
  = [].
Proof.
  intros Hne.
  destruct (report_status_pushed relayer_id last st blk pending env)
    as [[_ ->]|(_ & payload & -> & Hst & _)]; [done|].
  simpl. unfold pushes_with. simpl. by rewrite bool_decide_eq_false_2 by congruence.
Qed.

(** A pass of the loop hands no ERROR report to the service. *)
Lemma loop_body_no_error_push st env :
  pushes_with ERROR (loop_body cfg st env).2 = [].
Proof.
  unfold loop_body.
  destruct (get_confirmed_events _ _ _).1 as [events|e]; simpl; [|done].
  destruct (get_latest_block_number (height env)); simpl.
  - rewrite pushes_with_app, pushes_with_relayed. simpl.
    by apply pushes_with_report.
  - apply pushes_with_relayed.
Qed.

(** How the statements of a pass before the sleep end. *)
Lemma loop_body_outcome st env :
  (loop_body cfg st env).1.1
  = match get_latest_block_number (height env) with
    | Raise e => Raise e
    | Return latest =>
        (report_status (relayer_address (processor cfg)) (last_checkin st)
           OPERATIONAL latest
           (Z.of_nat (length (surfaced
              (get_confirmed_events (block_confirmations cfg)
                 (processed_events st) (poll env)).1)))
           (sink env)).1.1
    end.
Proof.
  unfold loop_body.
  rewrite (get_confirmed_events_returns (block_confirmations cfg)
             (processed_events st) (poll env)) at 1.
  simpl. by destruct (get_latest_block_number (height env)).
Qed.

Lemma loop_body_last_checkin st env e :
  (loop_body cfg st env).1.1 = Raise e ->
  last_checkin (loop_body cfg st env).1.2 = last_checkin st.
Proof.
  unfold loop_body.
  destruct (get_confirmed_events _ _ _).1 as [events|e0]; simpl; [|done].
  destruct (get_latest_block_number (height env)) as [latest|e1]; simpl; [|done].
  unfold report_status. destruct (Qltb _ _); simpl; [done|].
  by destruct (post (sink env)) as [code|[]].
Qed.

(** How a pass ends, sleep included. *)
Lemma loop_pass_outcome st env :
  (loop_pass cfg st env).1.1
  = match (loop_body cfg st env).1.1 with
    | Raise e => Raise e
    | Return _ => time_sleep (poll_interval cfg) (sleep env)
    end.
Proof.
  unfold loop_pass. by destruct (loop_body cfg st env) as [[[u|e] st'] obs].
Qed.

Lemma loop_pass_raised st env e :
  (loop_body cfg st env).1.1 = Raise e ->
  loop_pass cfg st env = loop_body cfg st env.
Proof.
  unfold loop_pass. by destruct (loop_body cfg st env) as [[[u|e'] st'] obs].
Qed.

End Fatal.

(** When [time.sleep] raises. *)
Lemma time_sleep_raises secs os e :
  time_sleep secs os = Raise e <->
  ((secs * 1000000000 < - 2 ^ 63 \/ 2 ^ 63 - 1 < secs * 1000000000) /\
   e = OverflowError) \/
  (- 2 ^ 63 <= secs * 1000000000 /\ secs < 0 /\ e = SleepValueError) \/
  (0 <= secs /\ secs * 1000000000 <= 2 ^ 63 - 1 /\ os = Raise e).
Proof.
  unfold time_sleep.
  destruct (secs * 1000000000 <? - 2 ^ 63) eqn:Hlow;
    [apply Z.ltb_lt in Hlow | apply Z.ltb_ge in Hlow]; simpl.
  - split; [intros [= <-]; left; split; [left; lia | done]|].
    intros [[_ ->]|[(H1 & _)|(H1 & _)]]; [done|lia..].
  - destruct (2 ^ 63 - 1 <? secs * 1000000000) eqn:Hhigh;
      [apply Z.ltb_lt in Hhigh | apply Z.ltb_ge in Hhigh].
    + split; [intros [= <-]; left; split; [right; lia | done]|].
      intros [[_ ->]|[(_ & H1 & _)|(_ & H1 & _)]]; [done|lia..].
    + destruct (secs <? 0) eqn:Hneg;
        [apply Z.ltb_lt in Hneg | apply Z.ltb_ge in Hneg].
      * split; [intros [= <-]; right; left; done|].
        intros [[[H1|H1] _]|[(_ & _ & ->)|(H1 & _)]]; [lia|lia|done|lia].
      * split; [intros ->; right; right; done|].
        intros [[[H1|H1] _]|[(_ & H1 & _)|(_ & _ & ->)]]; [lia|lia|lia|done].
Qed.

(** X16. Nothing the destination chain does can end the loop: a pass
    (lines 347-363) raises an error that nothing catches exactly when the
    height query of line 359 raises, or when the report passes the
    interval test of line 296 and its request fails with an error other
    than [RequestException], or when the statements before it returned and
    [time.sleep] raises: [OverflowError] for an interval whose nanoseconds
    do not fit 64 bits, [ValueError] for a negative interval, or the error
    of the operating system.  With the same source chain, clock,
    monitoring service and sleep, the pass ends the same way whatever the
    destination answers. *)
Theorem loop_survives_destination (cfg : Config) (st : Relayer) (env : CycleEnv) :
  (forall e,
      (loop_pass cfg st env).1.1 = Raise e <->
      get_latest_block_number (height env) = Raise e \/
      (exists latest,
          get_latest_block_number (height env) = Return latest /\
          (checkin_interval
           <= elapsed (current_time (sink env)) (last_checkin st))%Q /\
          post (sink env) = Raise e /\ e <> RequestException) \/
      ((loop_body cfg st env).1.1 = Return tt /\
       (((poll_interval cfg * 1000000000 < - 2 ^ 63 \/
          2 ^ 63 - 1 < poll_interval cfg * 1000000000) /\ e = OverflowError) \/
        (- 2 ^ 63 <= poll_interval cfg * 1000000000 /\ poll_interval cfg < 0 /\
         e = SleepValueError) \/
        (0 <= poll_interval cfg /\ poll_interval cfg * 1000000000 <= 2 ^ 63 - 1 /\
         sleep env = Raise e)))) /\
  (forall answers,
      (loop_pass cfg st (with_destination env answers)).1.1
      = (loop_pass cfg st env).1.1).
Proof.
  assert (Hbody : forall e,
    (loop_body cfg st env).1.1 = Raise e <->
    get_latest_block_number (height env) = Raise e \/
    (exists latest,
        get_latest_block_number (height env) = Return latest /\
        (checkin_interval
         <= elapsed (current_time (sink env)) (last_checkin st))%Q /\
        post (sink env) = Raise e /\ e <> RequestException)).
  { intros e. rewrite loop_body_outcome.
    destruct (get_latest_block_number (height env)) as [latest|e1].
    + rewrite report_status_raises. split.
      * intros H. right. by exists latest.
      * intros [[=]|(latest' & _ & H)]. done.
    + split; [intros [= ->]; by left|].
      intros [[= ->]|(latest & [=] & _)]. done. }
  split.
  - intros e. rewrite loop_pass_outcome.
    destruct (loop_body cfg st env).1.1 as [[]|e0] eqn:Hb.
    + rewrite time_sleep_raises. split.
      * intros H. right. right. by split.
      * intros [H|[H|[_ H]]]; [| |done].
        -- by pose proof (proj2 (Hbody e) (or_introl H)).
        -- by pose proof (proj2 (Hbody e) (or_intror H)).
    + split.
      * intros [= ->]. destruct (proj1 (Hbody e) eq_refl) as [H|H]; auto.
      * intros [H|[H|[[=] _]]].
        -- pose proof (proj2 (Hbody e) (or_introl H)). congruence.
        -- pose proof (proj2 (Hbody e) (or_intror H)). congruence.
  - intros answers. rewrite !loop_pass_outcome, !loop_body_outcome. simpl.
    destruct (get_latest_block_number (height env)) as [latest|e1]; [|done].
    unfold report_status. destruct (Qltb _ _); [done|].
    by destruct (post (sink env)) as [code|[]].
Qed.

Lemma loop_survives_destination_witness :
  (loop_pass sample_config started crashing_cycle).1.1 = Raise Web3Exception /\
  (loop_pass hasty_config started failing_cycle).1.1 = Raise SleepValueError.
Proof.
  split.
  - destruct (loop_survives_destination sample_config started crashing_cycle)
      as [Hiff _].
    apply Hiff. left. reflexivity.
  - destruct (loop_survives_destination hasty_config started failing_cycle)
      as [Hiff _].
    apply Hiff. right. right. split; [reflexivity|].
    right. left. split; [by vm_compute | split; [by vm_compute | reflexivity]].
Defined.

(** X17. When a pass of the loop (lines 347-363) raises, the run ends as
    Fatal, and the ERROR report of the handler goes through the interval
    test of line 296 like every other report, against the check-in time
    the pass left behind: it is handed to the monitoring service when the
    difference computed on doubles is not below 60, and is dropped without
    a request when it is; no other ERROR report is made. *)
Theorem fatal_report_is_rate_limited (cfg : Config) (st : Relayer)
    (env : CycleEnv) (rest : list CycleEnv) (e : exn) :
  (loop_pass cfg st env).1.1 = Raise e ->
  (main_loop cfg st (env :: rest)).1.1 = Fatal e /\
  ((elapsed (current_time (on_error env))
      (last_checkin (loop_pass cfg st env).1.2) < checkin_interval)%Q ->
   pushes_with ERROR (main_loop cfg st (env :: rest)).2 = []) /\
  ((checkin_interval
    <= elapsed (current_time (on_error env))
         (last_checkin (loop_pass cfg st env).1.2))%Q ->
   length (pushes_with ERROR (main_loop cfg st (env :: rest)).2) = 1%nat).
Proof.
  intros Hraise.
  pose proof (loop_body_no_error_push cfg st env) as Hnone.
  destruct (loop_pass_same cfg st env) as [Hobs _]. rewrite <- Hobs in Hnone.
  cbn [main_loop].
  destruct (loop_pass cfg st env) as [[[u|e'] st'] obs]; [done|].
  simpl in Hraise, Hnone. injection Hraise as ->.
  cbn [fst snd]. split; [done|].
  rewrite pushes_with_app, Hnone. cbn [app].
  destruct (report_status_pushed (relayer_address (processor cfg))
              (last_checkin st') ERROR 0 0 (on_error env))
    as [[Hearly ->]|(Hdue & payload & -> & Hst & _)].
  - split; [done|]. intros Hdue. exfalso. revert Hearly Hdue. apply Qlt_not_le.
  - split.
    + intros Hearly. exfalso. revert Hearly Hdue. apply Qlt_not_le.
    + intros _. simpl. unfold pushes_with. simpl.
      by rewrite bool_decide_eq_true_2.
Qed.

Lemma fatal_report_is_rate_limited_witness :
  (main_loop hasty_config started [quiet_cycle]).1.1 = Fatal SleepValueError /\
  pushes_with ERROR (main_loop hasty_config started [quiet_cycle]).2 = [].
Proof.
  destruct (fatal_report_is_rate_limited hasty_config started quiet_cycle []
              SleepValueError) as (Hexit & Hearly & _).
  - reflexivity.
  - split; [exact Hexit|]. apply Hearly. by vm_compute.
Defined.

(** X18. When the loop dies of its own report (the request fails with an
    error other than [RequestException]), the check-in time was not
    updated, so on a clock that does not run backwards the ERROR report of
    the handler is due and is handed to the monitoring service. *)
Theorem failed_report_is_followed_by_error_report (cfg : Config) (st : Relayer)
    (env : CycleEnv) (rest : list CycleEnv) (latest : Z) (e : exn) :
  get_latest_block_number (height env) = Return latest ->
  (checkin_interval <= current_time (sink env) - last_checkin st)%Q ->
  post (sink env) = Raise e ->
  e <> RequestException ->
  (current_time (sink env) <= current_time (on_error env))%Q ->
  (main_loop cfg st (env :: rest)).1.1 = Fatal e /\
  length (pushes_with OPERATIONAL (main_loop cfg st (env :: rest)).2) = 1%nat /\
  length (pushes_with ERROR (main_loop cfg st (env :: rest)).2) = 1%nat.
Proof.
  intros Hh Hdue Hpost Hne Hclock.
  assert (Hraise : (loop_body cfg st env).1.1 = Raise e).
  { rewrite loop_body_outcome, Hh. apply report_status_raises.
    split; [by apply elapsed_due | done]. }
  pose proof (loop_body_last_checkin cfg st env e Hraise) as Hlast.
  pose proof (loop_body_no_error_push cfg st env) as Hnone.
  assert (Hop : length (pushes_with OPERATIONAL (loop_body cfg st env).2) = 1%nat).
  { unfold loop_body.
    rewrite (get_confirmed_events_returns (block_confirmations cfg)
               (processed_events st) (poll env)) at 1.
    cbn [fst snd]. cbv zeta. rewrite Hh. cbn [fst snd].
    rewrite pushes_with_app, pushes_with_relayed. cbn [app].
    destruct (report_status_pushed (relayer_address (processor cfg))
                (last_checkin st) OPERATIONAL latest
                (Z.of_nat (length (surfaced
                   (get_confirmed_events (block_confirmations cfg)
                      (processed_events st) (poll env)).1))) (sink env))
      as [[Hearly _]|(_ & payload & -> & Hst & _)].
    - exfalso. apply elapsed_due in Hdue. revert Hearly Hdue. apply Qlt_not_le.
    - simpl. unfold pushes_with. simpl. by rewrite bool_decide_eq_true_2. }
  assert (Hdue' : (checkin_interval
                   <= current_time (on_error env) - last_checkin st)%Q).
  { unfold checkin_interval in *. lra. }
  cbn [main_loop]. rewrite (loop_pass_raised cfg st env e Hraise).
  destruct (loop_body cfg st env) as [[[u|e'] st'] obs]; [done|].
  simpl in Hraise, Hlast, Hnone, Hop. injection Hraise as ->.
  cbn [fst snd]. split; [done|]. rewrite Hlast.
  rewrite !pushes_with_app, Hnone, !length_app, Hop. cbn [app].
  destruct (report_status_pushed (relayer_address (processor cfg))
              (last_checkin st) ERROR 0 0 (on_error env))
    as [[Hearly _]|(_ & payload & -> & Hst & _)].
  - exfalso. apply elapsed_due in Hdue'. revert Hearly Hdue'. apply Qlt_not_le.
  - simpl. unfold pushes_with. simpl.
    rewrite bool_decide_eq_false_2 by (rewrite Hst; done).
    by rewrite bool_decide_eq_true_2.
Qed.

Lemma failed_report_is_followed_by_error_report_witness :
  (main_loop sample_config started [report_crash_cycle]).1.1 = Fatal RuntimeError /\
  length (pushes_with ERROR (main_loop sample_config started [report_crash_cycle]).2)
  = 1%nat.
Proof.
  destruct (failed_report_is_followed_by_error_report sample_config started
              report_crash_cycle [] 112 RuntimeError) as (Hexit & _ & Herr).
  - reflexivity.
  - by vm_compute.
  - reflexivity.
  - discriminate.
  - by vm_compute.
  - split; [exact Hexit | exact Herr].
Defined.

(** * The start of main *)

Lemma load_configuration_loaded py_int environ poll_interval depth :
  Forall (usable environ) required_vars ->
  py_int (getenv environ "POLL_INTERVAL_SECONDS" "15") = Some poll_interval ->
  py_int (getenv environ "BLOCK_CONFIRMATIONS" "12") = Some depth ->
  exists config,
    load_configuration py_int environ = inr config /\
    (forall var, var ∈ required_vars ->
       exists value, environ !! var = Some value /\
                     config_str config var = Some value) /\
    config_int config "POLL_INTERVAL_SECONDS" = Some poll_interval /\
    config_int config "BLOCK_CONFIRMATIONS" = Some depth.
Proof.
  intros Hall Hpoll Hdepth. unfold load_configuration.
  destruct (load_required_success environ required_vars ∅ Hall)
    as (config & -> & Hin & Hout).
  rewrite Hpoll, Hdepth. eexists. split; [done|]. split; [|split].
  - intros var Hvar. destruct (Hin var Hvar) as (value & Hv & _ & Hc).
    exists value. split; [done|]. unfold config_str.
    assert (var <> "BLOCK_CONFIRMATIONS"%string /\
            var <> "POLL_INTERVAL_SECONDS"%string) as [H1 H2].
    { unfold required_vars in Hvar.
      repeat (apply elem_of_cons in Hvar as [->|Hvar]; [done|]).
      by apply elem_of_nil in Hvar. }
    rewrite !lookup_insert_ne by done. by rewrite Hc.
  - unfold config_int. rewrite lookup_insert_ne by done.
    by rewrite lookup_insert_eq.
  - unfold config_int. by rewrite lookup_insert_eq.
Qed.

(** X19. [main] stops before the loop without a word to the monitoring
    service or to either bridge: it returns after [ConfigError] exactly
    when [load_configuration] raises it, and it returns at line 330 when
    the configuration is loaded and one of the two chains is not
    connected.  Every observation of a run comes from the loop. *)
Theorem main_stops_silently (py_int : string -> option Z) (env : StartEnv)
    (cycles : list CycleEnv) :
  ((main py_int env cycles).2 <> [] -> exists e, (main py_int env cycles).1 = Loop e) /\
  (forall var,
      (main py_int env cycles).1 = ConfigStop var <->
      load_configuration py_int (environ env) = inl (ConfigError var)) /\
  (forall config,
      load_configuration py_int (environ env) = inr config ->
      is_connected (new_connector (source_node env)) (source_probe env) = false \/
      is_connected (new_connector (destination_node env)) (destination_probe env)
      = false ->
      main py_int env cycles = (ConnectStop, [])).
Proof.
  unfold main. split; [|split].
  - destruct (load_configuration py_int (environ env)) as [[var|text]|config];
      [done..|].
    destruct (negb _ || negb _); [done|].
    destruct (config_int config "BLOCK_CONFIRMATIONS"); [|done].
    destruct (new_listener _ _); [|done].
    destruct (config_str config "RELAYER_PRIVATE_KEY"); [|done].
    destruct (new_processor _ _ _); [|done].
    intros _. by eexists.
  - intros var.
    destruct (load_configuration py_int (environ env)) as [[var'|text]|config].
    + simpl. split; intros [= ->]; done.
    + simpl. split; intros [=].
    + split; [|intros [=]].
      destruct (negb _ || negb _); [done|].
      destruct (config_int config "BLOCK_CONFIRMATIONS"); [|done].
      destruct (new_listener _ _); [|done].
      destruct (config_str config "RELAYER_PRIVATE_KEY"); [|done].
      by destruct (new_processor _ _ _).
  - intros config -> [Hdown|Hdown]; rewrite Hdown; simpl; [done|].
    by rewrite orb_true_r.
Qed.

Lemma main_stops_silently_witness :
  main int_of_digits
    {| environ := sample_environ;
       source_node := node_up 1; destination_node := node_down;
       source_probe := true; destination_probe := true;
       listener_init := good_listener_init;
       processor_init := good_processor_init |}
    [failing_cycle] = (ConnectStop, []).
Proof.
  destruct (load_configuration_loaded int_of_digits sample_environ 15 12
              sample_environ_usable eq_refl eq_refl) as (config & Hload & _).
  destruct (main_stops_silently int_of_digits
              {| environ := sample_environ;
                 source_node := node_up 1; destination_node := node_down;
                 source_probe := true; destination_probe := true;
                 listener_init := good_listener_init;
                 processor_init := good_processor_init |} [failing_cycle])
    as (_ & _ & Hstop).
  apply (Hstop config); [exact Hload | right; reflexivity].
Defined.

(** X20. An error raised between the loading of the configuration and
    the creation of the monitor ([ValueError] of an optional variable, or
    an exception of the listener's or the processor's constructor, such as
    the [ConnectionError] of [get_contract] or a key [from_key] rejects)
    reaches [except Exception], whose body reads [monitor] before it was
    assigned: [main] ends with that UnboundLocalError and nothing is
    reported. *)
Theorem startup_error_is_not_reported (py_int : string -> option Z)
    (env : StartEnv) (cycles : list CycleEnv) :
  (forall text,
      load_configuration py_int (environ env) = inl (ValueError text) ->
      main py_int env cycles = (UnboundMonitor, [])) /\
  (forall config e,
      load_configuration py_int (environ env) = inr config ->
      is_connected (new_connector (source_node env)) (source_probe env) = true ->
      is_connected (new_connector (destination_node env)) (destination_probe env)
      = true ->
      new_listener (new_connector (source_node env)) (listener_init env) = Raise e ->
      main py_int env cycles = (UnboundMonitor, [])) /\
  (forall config key e,
      load_configuration py_int (environ env) = inr config ->
      is_connected (new_connector (source_node env)) (source_probe env) = true ->
      is_connected (new_connector (destination_node env)) (destination_probe env)
      = true ->
      config_str config "RELAYER_PRIVATE_KEY" = Some key ->
      new_processor (new_connector (destination_node env)) key (processor_init env)
      = Raise e ->
      main py_int env cycles = (UnboundMonitor, [])).
Proof.
  unfold main. split; [|split].
  - by intros text ->.
  - intros config e -> -> -> ->. simpl.
    by destruct (config_int config "BLOCK_CONFIRMATIONS").
  - intros config key e -> -> -> -> ->. simpl.
    destruct (config_int config "BLOCK_CONFIRMATIONS"); [|done].
    by destruct (new_listener _ _).
Qed.

Lemma startup_error_is_not_reported_witness :
  main int_of_digits
    {| environ := sample_environ;
       source_node := node_up 1; destination_node := node_up 5;
       source_probe := true; destination_probe := true;
       listener_init := {| listener_probe := false; listener_checksum := Return 1;
                           create_filter := Return tt |};
       processor_init := good_processor_init |}
    [failing_cycle] = (UnboundMonitor, []).
Proof.
  destruct (load_configuration_loaded int_of_digits sample_environ 15 12
              sample_environ_usable eq_refl eq_refl) as (config & Hload & _).
  destruct (startup_error_is_not_reported int_of_digits
              {| environ := sample_environ;
                 source_node := node_up 1; destination_node := node_up 5;
                 source_probe := true; destination_probe := true;
                 listener_init := {| listener_probe := false;
                                     listener_checksum := Return 1;
                                     create_filter := Return tt |};
                 processor_init := good_processor_init |} [failing_cycle])
    as (_ & Hlistener & _).
  apply (Hlistener config ConnectionError); [exact Hload | reflexivity..].
Defined.

(** X21. When the configuration loads, both chains are connected and the
    two constructors return, [main] runs the loop from empty sets and a
    check-in time of 0, with the confirmation depth and the poll interval
    read from the environment (12 and 15 when unset), the relayer address
    derived from the configured key with its [0x] prefix, and the chain id
    the destination node gave at connection time.  The loop sleeps for the
    configured interval after every pass, so with a negative interval the
    run ends in the handler after its first pass. *)
Theorem main_enters_loop (py_int : string -> option Z) (env : StartEnv)
    (cycles : list CycleEnv) (interval depth n address : Z) (key : string) :
  Forall (usable (environ env)) required_vars ->
  py_int (getenv (environ env) "POLL_INTERVAL_SECONDS" "15") = Some interval ->
  py_int (getenv (environ env) "BLOCK_CONFIRMATIONS" "12") = Some depth ->
  environ env !! "RELAYER_PRIVATE_KEY"%string = Some key ->
  is_connected (new_connector (source_node env)) (source_probe env) = true ->
  is_connected (new_connector (destination_node env)) (destination_probe env)
  = true ->
  eth_chain_id (destination_node env) = Return n ->
  new_listener (new_connector (source_node env)) (listener_init env) = Return tt ->
  processor_probe (processor_init env) = true ->
  is_Some (match processor_checksum (processor_init env) with
           | Return a => Some a | Raise _ => None end) ->
  from_key (processor_init env) (normalize_key key) = Return address ->
  let cfg := {| block_confirmations := depth; poll_interval := interval;
                processor := {| relayer_address := address; chain_id := n |} |} in
  main py_int env cycles
  = (Loop (main_loop cfg started cycles).1.1, (main_loop cfg started cycles).2) /\
  (interval < 0 ->
   forall first rest, cycles = first :: rest ->
     exists e, (main py_int env cycles).1 = Loop (Fatal e) /\
               (main py_int env cycles).2
               = (loop_body cfg started first).2
                   ++ map Pushed
                        (report_status address
                           (last_checkin (loop_body cfg started first).1.2)
                           ERROR 0 0 (on_error first)).2).
Proof.
  intros Hall Hp Hd Hkey Hsrc Hdst Hn Hlistener Hprobe [a Ha] Haddr cfg.
  destruct (load_configuration_loaded py_int (environ env) interval depth
              Hall Hp Hd)
    as (config & Hload & Hreq & Hinterval & Hdepth).
  destruct (Hreq "RELAYER_PRIVATE_KEY"%string) as (key' & Hkey' & Hcfg).
  { unfold required_vars. do 4 right. left. }
  assert (key' = key) as -> by congruence.
  assert (Hmain : main py_int env cycles
                  = (Loop (main_loop cfg started cycles).1.1,
                     (main_loop cfg started cycles).2)).
  { unfold main. rewrite Hload, Hsrc, Hdst, Hdepth, Hlistener, Hcfg. simpl.
    assert (Hchain : chain_id_of (new_connector (destination_node env)) = n).
    { unfold is_connected in Hdst. apply andb_true_iff in Hdst as [Hup _].
      apply connected_has_chain_id in Hup as (m & Hm & Hc).
      unfold chain_id_of. rewrite Hc. simpl. congruence. }
    unfold new_processor, get_contract.
    unfold is_connected in Hdst |- *. apply andb_true_iff in Hdst as [Hup _].
    rewrite Hup, Hprobe. simpl.
    destruct (processor_checksum (processor_init env)) as [a'|e]; [|done].
    rewrite Haddr, Hchain. unfold interval_of. by rewrite Hinterval. }
  split; [done|].
  intros Hneg first rest ->. rewrite Hmain. cbn [main_loop].
  assert (Hsleep : exists e, time_sleep interval (sleep first) = Raise e).
  { unfold time_sleep. destruct (_ || _); [by eexists|].
    replace (interval <? 0) with true by (symmetry; by apply Z.ltb_lt).
    by eexists. }
  destruct Hsleep as [e Hsleep].
  unfold loop_pass.
  destruct (loop_body cfg started first) as [[[u|e'] st'] obs]; cbn [fst snd].
  - change (poll_interval cfg) with interval. rewrite Hsleep. cbn [fst snd].
    by exists e.
  - by exists e'.
Qed.

Lemma hasty_start_usable : Forall (usable (environ hasty_start)) required_vars.
Proof. repeat constructor; eexists; (split; [by vm_compute | done]). Qed.

Lemma main_enters_loop_witness :
  main int_of_digits good_start [failing_cycle; retry_cycle]
  = (Loop (main_loop sample_config started [failing_cycle; retry_cycle]).1.1,
     (main_loop sample_config started [failing_cycle; retry_cycle]).2) /\
  exists e, (main int_of_signed hasty_start [quiet_cycle; retry_cycle]).1
            = Loop (Fatal e).
Proof.
  split.
  - apply (main_enters_loop int_of_digits good_start [failing_cycle; retry_cycle]
             15 12 5 9 "ab"%string).
    + apply sample_environ_usable.
    + reflexivity.
    + reflexivity.
    + by vm_compute.
    + reflexivity.
    + reflexivity.
    + reflexivity.
    + reflexivity.
    + reflexivity.
    + by eexists.
    + reflexivity.
  - destruct (main_enters_loop int_of_signed hasty_start
                [quiet_cycle; retry_cycle] (-5) 12 5 9 "ab"%string)
      as [_ Hneg].
    + apply hasty_start_usable.
    + by vm_compute.
    + by vm_compute.
    + by vm_compute.
    + reflexivity.
    + reflexivity.
    + reflexivity.
    + reflexivity.
    + reflexivity.
    + by eexists.
    + reflexivity.
    + destruct (Hneg ltac:(lia) quiet_cycle [retry_cycle] eq_refl) as (e & He & _).
      by exists e.
Defined.

(** * Passes and redelivery *)

Lemma report_status_payload relayer_id last st blk pending env payload :
  payload ∈ (report_status relayer_id last st blk pending env).2 ->
  payload = {| relayerId := relayer_id; status := st;
               timestamp := int_of (current_time env);
               lastSourceBlock := blk; pendingTransactions := pending |}.
Proof.
  unfold report_status. destruct (Qltb _ _); [by intros ?%elem_of_nil|].
  destruct (post env) as [code|[]]; simpl;
    by intros ->%list_elem_of_singleton.
Qed.

Lemma process_all_relayed cfg answers events :
  forall ids payload, Pushed payload ∉ (process_all cfg ids answers events).2.
Proof.
  induction events as [|event rest IH]; intros ids payload; simpl.
  - by intros ?%elem_of_nil.
  - intros [?|Hin]%elem_of_cons; [done|]. by eapply IH.
Qed.

Lemma process_all_length cfg answers events :
  forall ids, length (process_all cfg ids answers events).2 = length events.
Proof.
  induction events as [|event rest IH]; intros ids; [done|].
  simpl. by rewrite IH.
Qed.

(** X22. The report of a pass describes that pass: a payload handed to
    the monitoring service by the loop has status OPERATIONAL, the
    relayer's address as its id, as block the answer of the height query
    made after the relays (0 when the source is unreachable at that time),
    and as count the number of events the poll handed out in the pass,
    each of which was relayed once, whatever the result. *)
Theorem report_describes_the_pass (cfg : Config) (st : Relayer) (env : CycleEnv)
    (payload : Payload) :
  Pushed payload ∈ (loop_body cfg st env).2 ->
  exists latest,
    get_latest_block_number (height env) = Return latest /\
    payload = {| relayerId := relayer_address (processor cfg);
                 status := OPERATIONAL;
                 timestamp := int_of (current_time (sink env));
                 lastSourceBlock := latest;
                 pendingTransactions :=
                   Z.of_nat (length (surfaced
                     (get_confirmed_events (block_confirmations cfg)
                        (processed_events st) (poll env)).1)) |} /\
    length (process_all (processor cfg) (processed_source_tx_ids st)
              (destination env)
              (surfaced (get_confirmed_events (block_confirmations cfg)
                           (processed_events st) (poll env)).1)).2
    = length (surfaced (get_confirmed_events (block_confirmations cfg)
                          (processed_events st) (poll env)).1).
Proof.
  unfold loop_body.
  rewrite (get_confirmed_events_returns (block_confirmations cfg)
             (processed_events st) (poll env)) at 1.
  cbn [fst snd]. cbv zeta.
  destruct (get_latest_block_number (height env)) as [latest|e]; cbn [fst snd].
  - intros [Hin|Hin]%elem_of_app.
    + by apply process_all_relayed in Hin.
    + apply list_elem_of_fmap in Hin as (payload' & [= ->] & Hin).
      apply report_status_payload in Hin as ->.
      exists latest. split; [done|]. split; [done|]. apply process_all_length.
  - intros Hin. by apply process_all_relayed in Hin.
Qed.

Lemma report_describes_the_pass_witness :
  exists latest,
    get_latest_block_number (height failing_cycle) = Return latest /\
    latest = 112.
Proof.
  destruct (report_describes_the_pass sample_config started failing_cycle
              {| relayerId := 9; status := OPERATIONAL; timestamp := 1000;
                 lastSourceBlock := 112; pendingTransactions := 1 |})
    as (latest & Hh & Hp & _).
  - vm_compute. right. left.
  - exists latest. split; [exact Hh|]. by injection Hp as <-.
Defined.

Lemma confirmed_nothing_new c latest entries :
  forall seen,
    (forall event, event ∈ entries -> c <= latest - blockNumber event ->
                   transactionHash event ∈ seen) ->
    confirmed c latest seen entries = [].
Proof.
  induction entries as [|x rest IH]; intros seen Hseen; [done|].
  simpl. destruct (decide (transactionHash x ∈ seen)) as [Hin|Hnew].
  - apply IH. intros event Hev. apply Hseen. by right.
  - destruct (c <=? latest - blockNumber x) eqn:Hdeep.
    + exfalso. apply Hnew, Hseen; [left | by apply Z.leb_le].
    + apply IH. intros event Hev. apply Hseen. by right.
Qed.

(** X23. Polling is idempotent under redelivery: when the node answers a
    second poll exactly as it answered the first (same height, same
    entries), the second poll hands out nothing and leaves
    [processed_events] as the first left it. *)
Theorem repeated_poll_is_empty (c : Z) (seen : gset Z) (env : PollEnv) :
  get_confirmed_events c (get_confirmed_events c seen env).2 env
  = (Return [], (get_confirmed_events c seen env).2).
Proof.
  destruct (get_confirmed_events_cases c seen env)
    as [Hnone|(latest & entries & Hh & Hz & He & Hsome)].
  - rewrite Hnone. simpl.
    destruct (get_confirmed_events_cases c seen env)
      as [Hnone'|(latest & entries & _ & _ & _ & Hsome)]; [done|].
    congruence.
  - rewrite Hsome. simpl.
    rewrite (get_confirmed_events_delivered c _ env latest entries) by done.
    rewrite confirmed_nothing_new; [by rewrite hashes_nil_union|].
    intros event. apply confirmed_covers.
Qed.
